(** * chronomap-ai: the timeline normalizer and the statistics aggregator

  A shallow embedding of [src/services/dataProcessor.ts] (with the types of
  [src/types.ts]) and the properties of [calculateStats] and
  [parseTimelineData].

  Modelling conventions
  - A JavaScript [number] is an exact rational or [NaN]; the rounding of
    IEEE doubles and the two infinities are outside the model.
  - A [Date] is an integer count of milliseconds or Invalid Date.
  - A JavaScript [Map] is an association list in insertion order, a [Set]
    of strings is a [gset], a [Record<string, number>] is a [gmap].
  - Strings are byte strings holding UTF-8: the degree sign is two bytes. *)

From Stdlib Require Import QArith Qround Ascii Lqa.
From stdpp Require Import gmap strings list fin_maps sorting pretty.

Local Open Scope Z_scope.

(** ** Numbers and dates *)

Inductive number : Type :=
  | NaN
  | Num (q : Q).

(** Truthiness of a number: [0] and [NaN] are falsy. *)
Definition number_truthy (n : number) : bool :=
  match n with
  | NaN => false
  | Num q => negb (Qnum q =? 0)
  end.

Definition number_add (a b : number) : number :=
  match a, b with
  | Num x, Num y => Num (x + y)
  | _, _ => NaN
  end.

Definition number_sub (a b : number) : number :=
  match a, b with
  | Num x, Num y => Num (x - y)
  | _, _ => NaN
  end.

(** Division by a positive integer constant ([/ 1000], [/ 60000], [/ 1e7]). *)
Definition number_div (a : number) (d : positive) : number :=
  match a with
  | Num x => Num (x / inject_Z (Zpos d))
  | NaN => NaN
  end.

(** [Math.round]: the nearest integer, halves going up. *)
Definition Math_round (a : number) : number :=
  match a with
  | Num x => Num (inject_Z (Qfloor (x + (1 # 2))))
  | NaN => NaN
  end.

Definition number_eqv (a b : number) : Prop :=
  match a, b with
  | NaN, NaN => True
  | Num x, Num y => (x == y)%Q
  | _, _ => False
  end.

Inductive Date : Type :=
  | InvalidDate
  | DateMs (ms : Z).

(** [getTime()]. *)
Definition getTime (d : Date) : number :=
  match d with
  | InvalidDate => NaN
  | DateMs ms => Num (inject_Z ms)
  end.

(** [isNaN(d.getTime())]. *)
Definition invalidDate (d : Date) : bool :=
  match d with
  | InvalidDate => true
  | DateMs _ => false
  end.

(** [a < b] and [a > b] on dates: both sides become their time value, and a
    comparison with [NaN] is false. *)
Definition Date_lt (a b : Date) : bool :=
  match a, b with
  | DateMs x, DateMs y => x <? y
  | _, _ => false
  end.

Definition Date_gt (a b : Date) : bool := Date_lt b a.

(** The largest time value of a [Date]: [new Date(8640000000000000)]. *)
Definition maxInstant : Z := 8640000000000000.

(** ** [Map<string, V>]: entries in insertion order *)

Module JSMap.
Section JSMap.
Context {V : Type}.

Fixpoint get (m : list (string * V)) (k : string) : option V :=
  match m with
  | [] => None
  | (k', v) :: rest => if String.eqb k' k then Some v else get rest k
  end.

(** [set] overwrites in place and appends a new key at the end. *)
Fixpoint set (m : list (string * V)) (k : string) (v : V) : list (string * V) :=
  match m with
  | [] => [(k, v)]
  | (k', v') :: rest =>
      if String.eqb k' k then (k', v) :: rest else (k', v') :: set rest k v
  end.
End JSMap.
End JSMap.

(** [m.set(k, (m.get(k) || 0) + 1)]. *)
Definition bump (m : list (string * nat)) (k : string) : list (string * nat) :=
  JSMap.set m k (S (default 0%nat (JSMap.get m k))).

(** ** [Array.prototype.sort]

  The sort is stable; for a consistent comparator every stable sort returns
  the same array, here by insertion from the right. *)

Section Sort.
Context {A : Type} (cmp : A → A → Z).

Fixpoint sort_insert (x : A) (l : list A) : list A :=
  match l with
  | [] => [x]
  | y :: rest => if cmp x y <=? 0 then x :: y :: rest else y :: sort_insert x rest
  end.

Definition sort (l : list A) : list A := foldr sort_insert [] l.
End Sort.

(** ** The data model of [types.ts] *)

(** A parsed JSON document, and [undefined] for what a lookup misses. *)
#[local] Unset Elimination Schemes.
Inductive JSON : Type :=
  | JUndefined
  | JNull
  | JBool (b : bool)
  | JNumber (n : number)
  | JString (s : string)
  | JArray (items : list JSON)
  | JObject (fields : list (string * JSON)).
#[local] Set Elimination Schemes.

Inductive EventType : Type := VISIT | MOVE | POINT.

Record ProcessedEvent : Type := mkEvent {
  id : string;
  type : EventType;
  title : string;
  subtitle : string;
  startTime : Date;
  endTime : Date;
  lat : number;
  lng : number;
  raw : JSON;
  distanceMeters : option number;
  city : option string;
  activityType : option string;
  placeId : option string;
  placeTypes : option (list string);
  semanticType : option string
}.

Record CityCount : Type := mkCityCount { name : string; count : nat }.

(** An entry of [activityBreakdown]; [activity] is its [name] field. *)
Record ActivityCount : Type := mkActivityCount { activity : string; value : nat }.

Record DateRange : Type := mkDateRange { start : Date; end_ : Date }.

(** [DashboardStats] as [calculateStats] fills it ([typeBreakdown],
    [homeStats] and [workStats] are never set there). *)
Record DashboardStats : Type := mkStats {
  totalDistanceKm : number;
  totalVisits : nat;
  uniquePlaces : nat;
  topCities : list CityCount;
  activityBreakdown : list ActivityCount;
  dateRange : DateRange;
  placeVisitCounts : gmap string nat
}.

(** ** [calculateStats] *)

Definition isVisit (e : ProcessedEvent) : bool :=
  match type e with VISIT => true | _ => false end.

Definition isMove (e : ProcessedEvent) : bool :=
  match type e with MOVE => true | _ => false end.

(** Truthiness of an optional string: [undefined] and the empty string are falsy. *)
Definition string_truthy (s : option string) : option string :=
  match s with
  | Some EmptyString => None
  | other => other
  end.

(** The accumulators of the [forEach] loop. *)
Record Acc : Type := mkAcc {
  totalDistanceMeters : number;
  placeCounts : list (string * nat);
  visitCountsByName : list (string * nat);
  activityCounts : list (string * nat);
  uniquePlaceTitles : gset string;
  minDate : Date;
  maxDate : Date
}.

Definition initAcc : Acc :=
  {| totalDistanceMeters := Num 0;
     placeCounts := [];
     visitCountsByName := [];
     activityCounts := [];
     uniquePlaceTitles := ∅;
     minDate := DateMs maxInstant;
     maxDate := DateMs (- maxInstant) |}.

Definition addDistance (total : number) (e : ProcessedEvent) : number :=
  match distanceMeters e with
  | Some d => if number_truthy d then number_add total d else total
  | None => total
  end.

Definition addCity (m : list (string * nat)) (e : ProcessedEvent) : list (string * nat) :=
  if isVisit e then
    match string_truthy (city e) with
    | Some c => bump m c
    | None => m
    end
  else m.

Definition addActivity (m : list (string * nat)) (e : ProcessedEvent) : list (string * nat) :=
  if isMove e then
    match string_truthy (activityType e) with
    | Some a => bump m a
    | None => m
    end
  else m.

(** One iteration of [events.forEach]. *)
Definition step (a : Acc) (e : ProcessedEvent) : Acc :=
  {| totalDistanceMeters := addDistance (totalDistanceMeters a) e;
     placeCounts := addCity (placeCounts a) e;
     visitCountsByName :=
       if isVisit e then bump (visitCountsByName a) (title e) else visitCountsByName a;
     activityCounts := addActivity (activityCounts a) e;
     uniquePlaceTitles :=
       if isVisit e then {[ title e ]} ∪ uniquePlaceTitles a else uniquePlaceTitles a;
     minDate := if Date_lt (startTime e) (minDate a) then startTime e else minDate a;
     maxDate := if Date_gt (endTime e) (maxDate a) then endTime e else maxDate a |}.

(** [(a, b) => b[1] - a[1]]. *)
Definition byCountDesc (a b : string * nat) : Z := Z.of_nat (snd b) - Z.of_nat (snd a).

Definition toCityCount (p : string * nat) : CityCount := mkCityCount (fst p) (snd p).
Definition toActivityCount (p : string * nat) : ActivityCount := mkActivityCount (fst p) (snd p).

(** [now] is what [new Date()] reads from the clock. *)
Definition calculateStats (now : Date) (events : list ProcessedEvent) : DashboardStats :=
  match events with
  | [] =>
      {| totalDistanceKm := Num 0;
         totalVisits := 0;
         uniquePlaces := 0;
         topCities := [];
         activityBreakdown := [];
         dateRange := mkDateRange now now;
         placeVisitCounts := ∅ |}
  | _ =>
      let a := fold_left step events initAcc in
      let breakdown := map toActivityCount (activityCounts a) in
      {| totalDistanceKm := Math_round (number_div (totalDistanceMeters a) 1000);
         totalVisits := length (filter (λ e, isVisit e = true) events);
         uniquePlaces := size (uniquePlaceTitles a);
         topCities := map toCityCount (take 5 (sort byCountDesc (placeCounts a)));
         activityBreakdown :=
           match breakdown with
           | [] => [mkActivityCount "Recorded Points" (length events)]
           | _ => breakdown
           end;
         dateRange := mkDateRange (minDate a) (maxDate a);
         placeVisitCounts := list_to_map (visitCountsByName a) |}
  end.

(** ** JavaScript values: truthiness, property access, exceptions *)

Definition truthy (v : JSON) : bool :=
  match v with
  | JUndefined | JNull => false
  | JBool b => b
  | JNumber n => number_truthy n
  | JString s => negb (String.eqb s EmptyString)
  | JArray _ | JObject _ => true
  end.

(** What running a piece of the parser gives: a value, a [TypeError] on its
    way to the [catch], or [IllTyped] when the document puts a value of
    another run-time type where [ProcessedEvent] declares a string or a
    number (such documents are outside the model). *)
Inductive exec (A : Type) : Type :=
  | Ok (a : A)
  | Throw
  | IllTyped.
Arguments Ok {A} a.
Arguments Throw {A}.
Arguments IllTyped {A}.

Global Instance exec_ret : MRet exec := λ A a, Ok a.
Global Instance exec_bind : MBind exec := λ A B f m,
  match m with
  | Ok a => f a
  | Throw => Throw
  | IllTyped => IllTyped
  end.

(** [v.k]: a [TypeError] on [null] and [undefined]; none of the keys the
    parser reads exists on a string, a number, a boolean or an array. The
    fields of a parsed object hold each key once, in enumeration order. *)
Definition prop (v : JSON) (k : string) : exec JSON :=
  match v with
  | JUndefined | JNull => Throw
  | JObject fields => Ok (default JUndefined (JSMap.get fields k))
  | _ => Ok JUndefined
  end.

(** [v?.k]. *)
Definition propOpt (v : JSON) (k : string) : JSON :=
  match v with
  | JObject fields => default JUndefined (JSMap.get fields k)
  | _ => JUndefined
  end.

(** [a || b], with [b] evaluated only when [a] is falsy. *)
Definition orElse (a : JSON) (b : exec JSON) : exec JSON :=
  if truthy a then Ok a else b.

Definition or_ (a b : JSON) : JSON := if truthy a then a else b.

(** Storing an [any] into a typed field of [ProcessedEvent]. *)
Definition castString (v : JSON) : exec string :=
  match v with JString s => Ok s | _ => IllTyped end.

Definition castNumber (v : JSON) : exec number :=
  match v with JNumber n => Ok n | _ => IllTyped end.

Definition castOptString (v : JSON) : exec (option string) :=
  match v with
  | JUndefined | JNull => Ok None
  | JString s => Ok (Some s)
  | _ => IllTyped
  end.

Definition castOptNumber (v : JSON) : exec (option number) :=
  match v with
  | JUndefined | JNull => Ok None
  | JNumber n => Ok (Some n)
  | _ => IllTyped
  end.

(** The built-ins the parser calls; their behaviour is the engine's. *)
Class JSRuntime : Type := {
  newDate : JSON → Date;              (* new Date(value) *)
  parseFloat : string → number;
  numberToString : number → string;   (* a number inside a template literal *)
  toLocaleTimeString : Date → string;
  clock : Date                        (* new Date() *)
}.

(** ** Strings *)

Definition isDigit (c : ascii) : bool :=
  let n := nat_of_ascii c in ((48 <=? n) && (n <=? 57))%nat.

(** The characters of [[-+]?\d*\.?\d+]. *)
Definition isNumberChar (c : ascii) : bool :=
  isDigit c || Ascii.eqb c "." || Ascii.eqb c "-" || Ascii.eqb c "+".

(** [\s] and the characters [trim] removes, within ASCII. *)
Definition isSpace (c : ascii) : bool :=
  let n := nat_of_ascii c in ((n =? 32) || ((9 <=? n) && (n <=? 13)))%nat.

(** The longest prefix of characters satisfying [p], and what follows. *)
Fixpoint span (p : ascii → bool) (s : string) : string * string :=
  match s with
  | String c rest =>
      if p c then let '(a, b) := span p rest in (String c a, b) else (EmptyString, s)
  | EmptyString => (EmptyString, EmptyString)
  end.

Definition dropSign (s : string) : string :=
  match s with
  | String c rest => if Ascii.eqb c "-" || Ascii.eqb c "+" then rest else s
  | EmptyString => s
  end.

(** The whole of [s] matches [[-+]?\d*\.?\d+]. *)
Definition matchesNumber (s : string) : bool :=
  let '(whole, r) := span isDigit (dropSign s) in
  match r with
  | EmptyString => negb (String.eqb whole EmptyString)
  | String c frac =>
      Ascii.eqb c "." &&
      (let '(digits, r') := span isDigit frac in
       negb (String.eqb digits EmptyString) && String.eqb r' EmptyString)
  end.

(** The degree sign U+00B0 in UTF-8. *)
Definition degree : string :=
  String (ascii_of_nat 194) (String (ascii_of_nat 176) EmptyString).

Definition stripPrefix (p s : string) : option string :=
  if String.prefix p s then Some (String.substring (String.length p) (String.length s - String.length p) s)
  else None.

(** A match of [/([-+]?\d*\.?\d+)°,\s*([-+]?\d*\.?\d+)°/] that starts at the
    head of [s]. Each group is followed by a degree sign, which no character
    of a group can be, so a group is the whole run of number characters. *)
Definition matchLatLngHere (s : string) : option (string * string) :=
  let '(g1, r1) := span isNumberChar s in
  if matchesNumber g1 then
    match stripPrefix (degree +:+ ",") r1 with
    | Some r2 =>
        let '(g2, r3) := span isNumberChar (snd (span isSpace r2)) in
        if matchesNumber g2 && String.prefix degree r3 then Some (g1, g2) else None
    | None => None
    end
  else None.

(** [str.match(...)]: the leftmost match. *)
Fixpoint matchLatLng (s : string) : option (string * string) :=
  match matchLatLngHere s with
  | Some m => Some m
  | None =>
      match s with
      | String _ rest => matchLatLng rest
      | EmptyString => None
      end
  end.

(** [str.replace(/_/g, ' ')]. *)
Fixpoint replaceUnderscores (s : string) : string :=
  match s with
  | String c rest => String (if Ascii.eqb c "_" then " "%char else c) (replaceUnderscores rest)
  | EmptyString => EmptyString
  end.

(** [s.split(',')]. *)
Fixpoint splitComma (s : string) : list string :=
  match s with
  | EmptyString => [EmptyString]
  | String c rest =>
      if Ascii.eqb c "," then EmptyString :: splitComma rest
      else match splitComma rest with
           | part :: parts => String c part :: parts
           | [] => [String c EmptyString]
           end
  end.

Fixpoint trimStart (s : string) : string :=
  match s with
  | String c rest => if isSpace c then trimStart rest else s
  | EmptyString => EmptyString
  end.

Definition trim (s : string) : string :=
  String.rev (trimStart (String.rev (trimStart s))).

(** [/\d/.test(s)]. *)
Fixpoint hasDigit (s : string) : bool :=
  match s with
  | String c rest => isDigit c || hasDigit rest
  | EmptyString => false
  end.

(** ** The helpers of [dataProcessor.ts] *)

Section Normalizer.
Context {rt : JSRuntime}.

Definition parseLatLngString (str : JSON) : option (number * number) :=
  match str with
  | JString s =>
      match matchLatLng s with
      | Some (g1, g2) => Some (parseFloat g1, parseFloat g2)
      | None => None
      end
  | _ => None
  end.

Definition e7ToFloat (e7 : JSON) : number :=
  match e7 with
  | JNumber n => number_div n 10000000
  | JString s => number_div (parseFloat s) 10000000
  | _ => Num 0
  end.

Definition locationKeys : list string :=
  ["lat"; "latitude"; "latE7"; "latitudeE7"; "placeVisit"; "activitySegment";
   "geometry"; "semanticSegments"; "rawSignals"; "latLng"; "LatLng"].

Definition isLocationLike (obj : JSON) : bool :=
  match obj with
  | JObject fields => existsb (λ k, bool_decide (is_Some (JSMap.get fields k))) locationKeys
  | _ => false
  end.

Definition priorityKeys : list string :=
  ["semanticSegments"; "rawSignals"; "timelineObjects"; "locations"; "features"].

(** The first priority key holding a non-empty array. *)
Fixpoint firstArray (data : JSON) (keys : list string) : option (list JSON) :=
  match keys with
  | [] => None
  | key :: rest =>
      match propOpt data key with
      | JArray (x :: items) => Some (x :: items)
      | _ => firstArray data rest
      end
  end.

(** The recursive search; [best] is [(bestArray, maxLocationCount)]. *)
Fixpoint search (node : JSON) (depth : nat) (best : option (list JSON) * nat)
  : option (list JSON) * nat :=
  if (5 <? depth)%nat then best
  else match node with
       | JArray items =>
           let locationCount := length (filter (λ x, isLocationLike x = true) items) in
           if (snd best <? locationCount)%nat then (Some items, locationCount) else best
       | JObject fields =>
           (fix each (fs : list (string * JSON)) (best : option (list JSON) * nat) :=
              match fs with
              | [] => best
              | (_, v) :: rest => each rest (search v (S depth) best)
              end) fields best
       | _ => best
       end.

Definition findDataArray (data : JSON) : option (list JSON) :=
  if truthy data then
    match data with
    | JArray items => Some items
    | _ =>
        match firstArray data priorityKeys with
        | Some items => Some items
        | None => fst (search data 0 (None, 0%nat))
        end
    end
  else None.

(** [extractCity] on its declared argument type. *)
Definition extractCity (address : option string) : option string :=
  match string_truthy address with
  | None => None
  | Some a =>
      let parts := map trim (splitComma a) in
      let n := length parts in
      if (3 <=? n)%nat then
        match parts !! (n - 2)%nat with
        | Some regionPart =>
            if hasDigit regionPart then parts !! (n - 3)%nat else Some regionPart
        | None => None
        end
      else if (n =? 2)%nat then parts !! 0%nat
      else if (0 <? n)%nat then parts !! 0%nat else None
  end.

(** [extractCity] on an [any]: a truthy value that is no string has no
    [split] method. *)
Definition extractCityAny (address : JSON) : exec (option string) :=
  if truthy address then
    match address with
    | JString s => Ok (extractCity (Some s))
    | _ => Throw
    end
  else Ok None.

(** ** The body of [rawItems.forEach] *)

(** [`${n}`] for an array index. *)
Definition indexToString (n : nat) : string :=
  numberToString (Num (inject_Z (Z.of_nat n))).

(** [x || 0] on an optional number. *)
Definition orZero (d : option number) : number :=
  match d with
  | Some n => if number_truthy n then n else Num 0
  | None => Num 0
  end.

(** [`${Math.round((d || 0) / 1000)} km journey`]. *)
Definition journeySubtitle (d : option number) : string :=
  numberToString (Math_round (number_div (orZero d) 1000)) +:+ " km journey".

(** 1a. A visit inside a semantic segment. *)
Definition semanticVisit (index : nat) (obj visit : JSON) (start end_ : Date)
  : exec (list ProcessedEvent) :=
  topCandidate ← prop visit "topCandidate";
  let placeLocation := propOpt topCandidate "placeLocation" in
  let latLngStr := propOpt placeLocation "latLng" in
  match parseLatLngString latLngStr with
  | Some (la, ln) =>
      if invalidDate start then Ok []
      else
        let name := or_ (propOpt topCandidate "name") (JString "Visited Place") in
        city ← extractCityAny (propOpt placeLocation "address");
        let placeId := propOpt topCandidate "placeId" in
        title ← castString name;
        placeId ← castOptString placeId;
        Ok [ {| id := "v-" +:+ indexToString index;
                type := VISIT;
                title := title;
                subtitle :=
                  "Visit duration: " +:+
                  numberToString
                    (Math_round (number_div (number_sub (getTime end_) (getTime start)) 60000))
                  +:+ "m";
                startTime := start;
                endTime := end_;
                lat := la;
                lng := ln;
                raw := obj;
                distanceMeters := None;
                city := city;
                activityType := None;
                placeId := placeId;
                placeTypes := None;
                semanticType := None |} ]
  | None => Ok []
  end.

(** 1b. An activity inside a semantic segment. *)
Definition semanticActivity (index : nat) (obj activity : JSON) (start end_ : Date)
  : exec (list ProcessedEvent) :=
  actStart ← prop activity "start";
  let startCoords := parseLatLngString (propOpt actStart "latLng") in
  actEnd ← prop activity "end";
  let endCoords := parseLatLngString (propOpt actEnd "latLng") in
  topCandidate ← prop activity "topCandidate";
  let type_ := or_ (propOpt topCandidate "type") (JString "MOVE") in
  match endCoords with
  | Some (la, ln) =>
      if invalidDate start then Ok []
      else
        (* [type.replace]: only a string has the method *)
        label ← match type_ with
                | JString s => Ok (replaceUnderscores s)
                | _ => Throw
                end;
        distance ← prop activity "distanceMeters";
        distance ← castOptNumber distance;
        Ok [ {| id := "a-" +:+ indexToString index;
                type := MOVE;
                title := label;
                subtitle := journeySubtitle distance;
                startTime := start;
                endTime := end_;
                lat := la;
                lng := ln;
                raw := obj;
                distanceMeters := distance;
                city := None;
                activityType := Some label;
                placeId := None;
                placeTypes := None;
                semanticType := None |} ]
  | None => Ok []
  end.

(** 1c. One point of a [timelinePath]. *)
Definition pathPoint (index : nat) (startTime : JSON) (pIdx : nat) (pathPt : JSON)
  : exec (list ProcessedEvent) :=
  point ← prop pathPt "point";
  let coords := parseLatLngString point in
  time ← prop pathPt "time";
  let ptTime := newDate (or_ time startTime) in
  match coords with
  | Some (la, ln) =>
      if invalidDate ptTime then Ok []
      else if (pIdx mod 5 =? 0)%nat then
        Ok [ {| id := "tp-" +:+ indexToString index +:+ "-" +:+ indexToString pIdx;
                type := POINT;
                title := "Path Point";
                subtitle := toLocaleTimeString ptTime;
                startTime := ptTime;
                endTime := ptTime;
                lat := la;
                lng := ln;
                raw := pathPt;
                distanceMeters := None;
                city := None;
                activityType := None;
                placeId := None;
                placeTypes := None;
                semanticType := None |} ]
      else Ok []
  | None => Ok []
  end.

(** [obj.timelinePath.forEach]. *)
Fixpoint timelinePath (index : nat) (startTime : JSON) (pIdx : nat) (path : list JSON)
  : exec (list ProcessedEvent) :=
  match path with
  | [] => Ok []
  | pathPt :: rest =>
      pushed ← pathPoint index startTime pIdx pathPt;
      more ← timelinePath index startTime (S pIdx) rest;
      Ok (pushed ++ more)
  end.

(** 1. A semantic segment: [startTime] is truthy. *)
Definition semanticSegment (index : nat) (obj startTime endTime : JSON)
  : exec (list ProcessedEvent) :=
  let start := newDate startTime in
  let end_ := newDate (or_ endTime startTime) in
  visit ← prop obj "visit";
  if truthy visit then semanticVisit index obj visit start end_
  else
    activity ← prop obj "activity";
    if truthy activity then semanticActivity index obj activity start end_
    else
      path ← prop obj "timelinePath";
      match path with
      | JArray pts => timelinePath index startTime 0 pts
      | _ => Ok []
      end.

(** 2. A raw signal. *)
Definition rawSignal (index : nat) (obj position : JSON) : exec (list ProcessedEvent) :=
  latLngStr ← prop position "LatLng";
  let coords := parseLatLngString latLngStr in
  ts ← prop position "timestamp";
  match coords with
  | Some (la, ln) =>
      if truthy ts then
        let date := newDate ts in
        if invalidDate date then Ok []
        else if (index mod 50 =? 0)%nat then
          Ok [ {| id := "rs-" +:+ indexToString index;
                  type := POINT;
                  title := "Raw Signal";
                  subtitle := toLocaleTimeString date;
                  startTime := date;
                  endTime := date;
                  lat := la;
                  lng := ln;
                  raw := obj;
                  distanceMeters := None;
                  city := None;
                  activityType := None;
                  placeId := None;
                  placeTypes := None;
                  semanticType := None |} ]
        else Ok []
      else Ok []
  | None => Ok []
  end.

(** [loc.latitudeE7 ? e7ToFloat(loc.latitudeE7) : (loc.latitude || loc.lat || 0)]
    and its longitude twin. *)
Definition visitLat (loc : JSON) : JSON :=
  if truthy (propOpt loc "latitudeE7") then JNumber (e7ToFloat (propOpt loc "latitudeE7"))
  else or_ (or_ (propOpt loc "latitude") (propOpt loc "lat")) (JNumber (Num 0)).

Definition visitLng (loc : JSON) : JSON :=
  if truthy (propOpt loc "longitudeE7") then JNumber (e7ToFloat (propOpt loc "longitudeE7"))
  else or_ (or_ (propOpt loc "longitude") (propOpt loc "lng")) (JNumber (Num 0)).

(** [loc?.latitudeE7 ? e7ToFloat(loc.latitudeE7) : (loc?.latitude || 0)]
    and its longitude twin. *)
Definition segmentLat (loc : JSON) : JSON :=
  if truthy (propOpt loc "latitudeE7") then JNumber (e7ToFloat (propOpt loc "latitudeE7"))
  else or_ (propOpt loc "latitude") (JNumber (Num 0)).

Definition segmentLng (loc : JSON) : JSON :=
  if truthy (propOpt loc "longitudeE7") then JNumber (e7ToFloat (propOpt loc "longitudeE7"))
  else or_ (propOpt loc "longitude") (JNumber (Num 0)).

(** 3a. A legacy place visit. *)
Definition legacyVisit (index : nat) (obj placeVisit : JSON) : exec (list ProcessedEvent) :=
  location ← prop placeVisit "location";
  let loc := or_ location (JObject []) in
  let lat_ := visitLat loc in
  let lng_ := visitLng loc in
  duration ← prop placeVisit "duration";
  let startStr := or_ (propOpt duration "startTimestamp") (propOpt duration "startTime") in
  if truthy lat_ && truthy lng_ && truthy startStr then
    let start := newDate startStr in
    let end_ := newDate (or_ (propOpt duration "endTimestamp") startStr) in
    city ← extractCityAny (propOpt loc "address");
    let placeId := propOpt loc "placeId" in
    title ← castString (or_ (propOpt loc "name") (JString "Visited Place"));
    la ← castNumber lat_;
    ln ← castNumber lng_;
    placeId ← castOptString placeId;
    Ok [ {| id := "legacy-v-" +:+ indexToString index;
            type := VISIT;
            title := title;
            subtitle := "Legacy format visit";
            startTime := start;
            endTime := end_;
            lat := la;
            lng := ln;
            raw := obj;
            distanceMeters := None;
            city := city;
            activityType := None;
            placeId := placeId;
            placeTypes := None;
            semanticType := None |} ]
  else Ok [].

(** [activitySegment.endLocation || activitySegment.startLocation]. *)
Definition segmentLocation (activitySegment : JSON) : JSON :=
  or_ (propOpt activitySegment "endLocation") (propOpt activitySegment "startLocation").

(** 3b. A legacy activity segment. *)
Definition legacyActivity (index : nat) (obj activitySegment : JSON)
  : exec (list ProcessedEvent) :=
  duration ← prop activitySegment "duration";
  let startStr := or_ (propOpt duration "startTimestamp") (propOpt duration "startTime") in
  let endStr := or_ (propOpt duration "endTimestamp") (propOpt duration "endTime") in
  activityType_ ← prop activitySegment "activityType";
  let type_ := or_ activityType_ (JString "TRAVEL") in
  if truthy startStr then
    let start := newDate startStr in
    let end_ := newDate (or_ endStr startStr) in
    let loc := segmentLocation activitySegment in
    let lat_ := segmentLat loc in
    let lng_ := segmentLng loc in
    if truthy lat_ && truthy lng_ then
      distance ← prop activitySegment "distance";
      label ← castString type_;
      distance ← castOptNumber distance;
      la ← castNumber lat_;
      ln ← castNumber lng_;
      Ok [ {| id := "legacy-a-" +:+ indexToString index;
              type := MOVE;
              title := label;
              subtitle := journeySubtitle distance;
              startTime := start;
              endTime := end_;
              lat := la;
              lng := ln;
              raw := obj;
              distanceMeters := distance;
              city := None;
              activityType := Some label;
              placeId := None;
              placeTypes := None;
              semanticType := None |} ]
    else Ok []
  else Ok [].

(** 3. The traditional Takeout format. *)
Definition legacyRecord (index : nat) (obj : JSON) : exec (list ProcessedEvent) :=
  pv ← prop obj "placeVisit";
  placeVisit ← orElse pv (prop obj "visit");
  seg ← prop obj "activitySegment";
  activitySegment ← orElse seg (prop obj "activity");
  if truthy placeVisit then legacyVisit index obj placeVisit
  else if truthy activitySegment then legacyActivity index obj activitySegment
  else Ok [].

(** [obj.startTime || obj.duration?.startTimestamp] and its end twin. *)
Definition recordStartTime (obj : JSON) : exec JSON :=
  t ← prop obj "startTime";
  orElse t (duration ← prop obj "duration"; Ok (propOpt duration "startTimestamp")).

Definition recordEndTime (obj : JSON) : exec JSON :=
  t ← prop obj "endTime";
  orElse t (duration ← prop obj "duration"; Ok (propOpt duration "endTimestamp")).

(** The events one record pushes. *)
Definition processRecord (index : nat) (obj : JSON) : exec (list ProcessedEvent) :=
  startTime ← recordStartTime obj;
  endTime ← recordEndTime obj;
  if truthy startTime then semanticSegment index obj startTime endTime
  else
    position ← prop obj "position";
    if truthy position then rawSignal index obj position
    else legacyRecord index obj.

(** [rawItems.forEach], from [index] on. *)
Fixpoint collectEvents (index : nat) (rawItems : list JSON) : exec (list ProcessedEvent) :=
  match rawItems with
  | [] => Ok []
  | obj :: rest =>
      pushed ← processRecord index obj;
      more ← collectEvents (S index) rest;
      Ok (pushed ++ more)
  end.

(** [(a, b) => a.startTime.getTime() - b.startTime.getTime()]; the sort
    reads a [NaN] from the comparator as [0]. *)
Definition byStartTime (a b : ProcessedEvent) : Z :=
  match startTime a, startTime b with
  | DateMs x, DateMs y => x - y
  | _, _ => 0
  end.

(** ** [parseTimelineData] *)

(** The [try] block. *)
Definition parseBody (jsonData : JSON)
  : exec (option (list ProcessedEvent * DashboardStats)) :=
  match findDataArray jsonData with
  | None | Some [] => Ok None
  | Some rawItems =>
      events ← collectEvents 0 rawItems;
      match events with
      | [] => Ok None
      | _ =>
          let events := sort byStartTime events in
          Ok (Some (events, calculateStats clock events))
      end
  end.

(** [None] is the [null] result; the [catch] turns a [TypeError] into it. *)
Definition parseTimelineData (jsonData : JSON)
  : exec (option (list ProcessedEvent * DashboardStats)) :=
  match parseBody jsonData with
  | Throw => Ok None
  | result => result
  end.
End Normalizer.

(** * Notions the properties are stated with *)

(** ** Lists: one element before another *)

Definition before {A : Type} (l : list A) (x y : A) : Prop :=
  ∃ l1 l2 l3, l = l1 ++ x :: l2 ++ y :: l3.

(** ** Counting by key *)

(** Counting the elements of a list by an optional key, as the loop of
    [calculateStats] does for cities, titles and activity types. *)
Section TallyDefs.
Context {E : Type} (key : E → option string).
Implicit Types (m : list (string * nat)) (l : list E) (k : string).

Definition tallyStep m (e : E) : list (string * nat) :=
  match key e with
  | Some k => bump m k
  | None => m
  end.

Definition occurrences k l : nat := length (filter (λ e, key e = Some k) l).

(** The position of the first element carrying [k] (the length when none does). *)
Fixpoint firstSeen k l : nat :=
  match l with
  | [] => 0
  | e :: rest => if decide (key e = Some k) then 0 else S (firstSeen k rest)
  end.

(** The keys not yet [seen], in the order in which they first occur. *)
Fixpoint firsts (seen : list string) l : list string :=
  match l with
  | [] => []
  | e :: rest =>
      match key e with
      | Some k => if decide (k ∈ seen) then firsts seen rest else k :: firsts (seen ++ [k]) rest
      | None => firsts seen rest
      end
  end.

End TallyDefs.

(** ** The loop of [calculateStats], one accumulator at a time *)

(** The city a Visit event carries, and the key the loop counts it under
    (a falsy city is not counted). *)
Definition visitCity (e : ProcessedEvent) : option string :=
  if isVisit e then city e else None.

Definition cityKey (e : ProcessedEvent) : option string :=
  if isVisit e then string_truthy (city e) else None.

Definition titleKey (e : ProcessedEvent) : option string :=
  if isVisit e then Some (title e) else None.

Definition activityKey (e : ProcessedEvent) : option string :=
  if isMove e then string_truthy (activityType e) else None.

Definition minStep (d : Date) (e : ProcessedEvent) : Date :=
  if Date_lt (startTime e) d then startTime e else d.

Definition maxStep (d : Date) (e : ProcessedEvent) : Date :=
  if Date_gt (endTime e) d then endTime e else d.

Definition titleStep (s : gset string) (e : ProcessedEvent) : gset string :=
  if isVisit e then {[ title e ]} ∪ s else s.

(** The sum of the values of a [Record<string, number>]. *)
Definition sumValues (m : gmap string nat) : nat :=
  map_fold (λ _ v acc, v + acc)%nat 0%nat m.

Definition instantOf (d : Date) : option Z :=
  match d with
  | DateMs ms => Some ms
  | InvalidDate => None
  end.

(** The valid start and end instants of a list of events. *)
Definition startTimes (events : list ProcessedEvent) : list Z :=
  omap (λ e, instantOf (startTime e)) events.

Definition endTimes (events : list ProcessedEvent) : list Z :=
  omap (λ e, instantOf (endTime e)) events.

(** A [Date] that holds an instant; no [Date] object holds a time value
    beyond [maxInstant]. *)
Definition ValidInstant (d : Date) : Prop :=
  match d with
  | DateMs ms => - maxInstant <= ms <= maxInstant
  | InvalidDate => False
  end.

Definition minimumOf (m : Z) (l : list Z) : Prop := m ∈ l ∧ ∀ x, x ∈ l → m <= x.
Definition maximumOf (m : Z) (l : list Z) : Prop := m ∈ l ∧ ∀ x, x ∈ l → x <= m.


(** ** How a record is classified *)

Section RecordNotions.
Context {rt : JSRuntime}.
Implicit Types (index : nat) (obj : JSON) (items : list JSON) (evs : list ProcessedEvent).

(** The start time a record is classified by. *)
Definition startTimeOf obj : JSON :=
  or_ (propOpt obj "startTime") (propOpt (propOpt obj "duration") "startTimestamp").

Definition endTimeOf obj : JSON :=
  or_ (propOpt obj "endTime") (propOpt (propOpt obj "duration") "endTimestamp").

(** [obj.placeVisit || obj.visit] and [obj.activitySegment || obj.activity]. *)
Definition placeVisitOf (obj : JSON) : JSON :=
  or_ (propOpt obj "placeVisit") (propOpt obj "visit").

Definition activitySegmentOf (obj : JSON) : JSON :=
  or_ (propOpt obj "activitySegment") (propOpt obj "activity").

(** A coordinate that is the number zero. *)
Definition isZero (v : JSON) : Prop := ∃ q, v = JNumber (Num q) ∧ (q == 0)%Q.

(** The latitude and longitude the legacy branch resolves for a record. *)
Definition legacyCoordinates (obj : JSON) : option (JSON * JSON) :=
  if truthy (placeVisitOf obj) then
    let loc := or_ (propOpt (placeVisitOf obj) "location") (JObject []) in
    Some (visitLat loc, visitLng loc)
  else if truthy (activitySegmentOf obj) then
    let loc := segmentLocation (activitySegmentOf obj) in
    Some (segmentLat loc, segmentLng loc)
  else None.



(** [s] holds an underscore. *)
Fixpoint hasUnderscore (s : string) : bool :=
  match s with
  | String c rest => Ascii.eqb c "_" || hasUnderscore rest
  | EmptyString => false
  end.



End RecordNotions.

(** ** A sample engine

  Enough of the built-ins to run the parser on the documents below: dates in
  the ISO form [YYYY-MM-DDTHH:MM:SS(.sss)Z] and as epoch numbers, decimal
  literals without exponent, integers printed in decimal (the parser prints
  no other number), and the time of day in UTC. The theorems hold for every
  [JSRuntime]. *)

Module SampleEngine.

Fixpoint readDigits (n : nat) (acc : Z) (s : string) : option (Z * string) :=
  match n with
  | O => Some (acc, s)
  | S n' =>
      match s with
      | String c rest =>
          if isDigit c then readDigits n' (10 * acc + Z.of_nat (nat_of_ascii c - 48)) rest
          else None
      | EmptyString => None
      end
  end.

Definition expect (c : ascii) (s : string) : option string :=
  match s with
  | String c' rest => if Ascii.eqb c c' then Some rest else None
  | EmptyString => None
  end.

(** Days from 1970-01-01 to a date of the civil calendar. *)
Definition daysFromCivil (y m d : Z) : Z :=
  let y' := if m <=? 2 then y - 1 else y in
  let era := y' / 400 in
  let yoe := y' - era * 400 in
  let doy := (153 * ((m + 9) mod 12) + 2) / 5 + d - 1 in
  era * 146097 + (yoe * 365 + yoe / 4 - yoe / 100 + doy) - 719468.

Definition parseIso (s : string) : option Z :=
  '(y, s) ← readDigits 4 0 s; s ← expect "-" s;
  '(mo, s) ← readDigits 2 0 s; s ← expect "-" s;
  '(d, s) ← readDigits 2 0 s; s ← expect "T" s;
  '(h, s) ← readDigits 2 0 s; s ← expect ":" s;
  '(mi, s) ← readDigits 2 0 s; s ← expect ":" s;
  '(sec, s) ← readDigits 2 0 s;
  '(ms, s) ← (match expect "." s with
              | Some rest => readDigits 3 0 rest
              | None => Some (0, s)
              end);
  s ← expect "Z" s;
  if String.eqb s EmptyString && (1 <=? mo) && (mo <=? 12) && (1 <=? d) && (d <=? 31)
     && (h <=? 23) && (mi <=? 59) && (sec <=? 59)
  then Some ((((daysFromCivil y mo d * 24 + h) * 60 + mi) * 60 + sec) * 1000 + ms)
  else None.

Definition dateOfNumber (n : number) : Date :=
  match n with
  | Num q =>
      let ms := Z.quot (Qnum q) (Zpos (Qden q)) in
      if (- maxInstant <=? ms) && (ms <=? maxInstant) then DateMs ms else InvalidDate
  | NaN => InvalidDate
  end.

Definition sampleNewDate (v : JSON) : Date :=
  match v with
  | JString s => from_option DateMs InvalidDate (parseIso s)
  | JNumber n => dateOfNumber n
  | _ => InvalidDate
  end.

Fixpoint digitsValue (acc : Z) (s : string) : Z :=
  match s with
  | String c rest => digitsValue (10 * acc + Z.of_nat (nat_of_ascii c - 48)) rest
  | EmptyString => acc
  end.

Fixpoint tenPower (n : nat) : positive :=
  match n with
  | O => 1
  | S n' => 10 * tenPower n'
  end.

Definition sampleParseFloat (s : string) : number :=
  let s := trimStart s in
  let negative := match s with String "-" _ => true | _ => false end in
  let '(whole, r) := span isDigit (dropSign s) in
  let '(frac, _) := match r with
                    | String "." r' => span isDigit r'
                    | _ => (EmptyString, r)
                    end in
  if String.eqb whole EmptyString && String.eqb frac EmptyString then NaN
  else
    let q := digitsValue 0 (whole +:+ frac) # tenPower (String.length frac) in
    Num (Qred (if negative then - q else q)).

Definition digitsOfZ (z : Z) : string :=
  match z with
  | Z0 => "0"
  | Zpos p => pretty (Npos p)
  | Zneg p => "-" +:+ pretty (Npos p)
  end.

Definition sampleNumberToString (n : number) : string :=
  match n with
  | NaN => "NaN"
  | Num q =>
      let q := Qred q in
      if Pos.eqb (Qden q) 1 then digitsOfZ (Qnum q)
      else digitsOfZ (Qnum q) +:+ "/" +:+ digitsOfZ (Zpos (Qden q))
  end.

Definition twoDigits (z : Z) : string :=
  if z <? 10 then "0" +:+ digitsOfZ z else digitsOfZ z.

Definition sampleTimeString (d : Date) : string :=
  match d with
  | InvalidDate => "Invalid Date"
  | DateMs ms =>
      let s := (ms / 1000) mod 86400 in
      twoDigits (s / 3600) +:+ ":" +:+ twoDigits ((s / 60) mod 60) +:+ ":" +:+ twoDigits (s mod 60)
  end.

Definition engine : JSRuntime :=
  {| newDate := sampleNewDate;
     parseFloat := sampleParseFloat;
     numberToString := sampleNumberToString;
     toLocaleTimeString := sampleTimeString;
     clock := DateMs 1730505600000 |}.

End SampleEngine.

(** ** Sample events *)

Definition sampleVisit (title_ : string) (city_ : option string) (from to : Z) : ProcessedEvent :=
  {| id := "v-0"; type := VISIT; title := title_; subtitle := "Visit duration: 60m";
     startTime := DateMs from; endTime := DateMs to;
     lat := Num (34 # 1); lng := Num (-118 # 1); raw := JObject [];
     distanceMeters := None; city := city_; activityType := None;
     placeId := None; placeTypes := None; semanticType := None |}.

Definition sampleMove (mode : string) (meters : Q) (from to : Z) : ProcessedEvent :=
  {| id := "a-0"; type := MOVE; title := mode; subtitle := "1 km journey";
     startTime := DateMs from; endTime := DateMs to;
     lat := Num (34 # 1); lng := Num (-118 # 1); raw := JObject [];
     distanceMeters := Some (Num meters); city := None; activityType := Some mode;
     placeId := None; placeTypes := None; semanticType := None |}.

(** 2024-01-01T10:00:00Z, and the hours after it. *)
Definition tenOClock : Z := 1704103200000.
Definition hour : Z := 3600000.

Definition sampleDay : list ProcessedEvent :=
  [ sampleVisit "Cafe X" (Some "Los Angeles") tenOClock (tenOClock + hour);
    sampleMove "WALKING" (1200 # 1) (tenOClock + hour) (tenOClock + 2 * hour);
    sampleVisit "Office" (Some "Pasadena") (tenOClock + 2 * hour) (tenOClock + 5 * hour);
    sampleMove "IN PASSENGER VEHICLE" (17400 # 1) (tenOClock + 5 * hour) (tenOClock + 6 * hour);
    sampleVisit "Cafe X" (Some "Los Angeles") (tenOClock + 6 * hour) (tenOClock + 7 * hour) ].

(** An event whose end is stored an hour before its start. *)
Definition endsBeforeStart : ProcessedEvent :=
  sampleVisit "Cafe X" (Some "Los Angeles") (tenOClock + hour) tenOClock.


(** Six visits, each to a city of its own. *)
Definition sixCities : list ProcessedEvent :=
  [ sampleVisit "A" (Some "Ames") 1 2; sampleVisit "B" (Some "Bath") 3 4;
    sampleVisit "C" (Some "Cork") 5 6; sampleVisit "D" (Some "Deal") 7 8;
    sampleVisit "E" (Some "Enna") 9 10; sampleVisit "F" (Some "Faro") 11 12 ].

(** ** Sample documents *)

Definition str (s : string) : JSON := JString s.
Definition int (z : Z) : JSON := JNumber (Num (inject_Z z)).

(** The end-to-end scenario of the specification. *)
Definition cafeSegment : JSON :=
  JObject
    [ ("startTime", str "2024-01-01T10:00:00Z");
      ("endTime", str "2024-01-01T11:00:00Z");
      ("visit",
        JObject
          [ ("topCandidate",
              JObject
                [ ("name", str "Cafe X");
                  ("placeLocation",
                    JObject
                      [ ("latLng", str "34.0°, -118.0°");
                        ("address", str "1 Elm St, Los Angeles, CA 90012, USA") ]) ]) ]) ].

Definition cafeDocument : JSON := JObject [ ("semanticSegments", JArray [cafeSegment]) ].

(** A place visit whose start timestamp is no date. *)
Definition visitWithBadTime : JSON :=
  JObject
    [ ("placeVisit",
        JObject
          [ ("location",
              JObject
                [ ("latitudeE7", int 340522000);
                  ("longitudeE7", int (-1182437000));
                  ("name", str "Cafe X") ]);
            ("duration", JObject [ ("startTimestamp", str "not a date") ]) ]) ].

Definition badTimeDocument : JSON := JObject [ ("timelineObjects", JArray [visitWithBadTime]) ].

(** A drive as the traditional export labels it. *)
Definition legacyDriveFields : list (string * JSON) :=
    [ ("activitySegment",
        JObject
          [ ("startLocation",
              JObject [ ("latitudeE7", int 340522000); ("longitudeE7", int (-1182437000)) ]);
            ("endLocation",
              JObject [ ("latitudeE7", int 341478000); ("longitudeE7", int (-1181445000)) ]);
            ("duration",
              JObject
                [ ("startTimestamp", str "2020-01-01T10:00:00Z");
                  ("endTimestamp", str "2020-01-01T10:30:00Z") ]);
            ("distance", int 17400);
            ("activityType", str "IN_PASSENGER_VEHICLE") ]) ].

Definition legacyDrive : JSON := JObject legacyDriveFields.

Definition legacyDriveDocument : JSON := JObject [ ("timelineObjects", JArray [legacyDrive]) ].

Definition sampleActivity : JSON :=
  JObject
    [ ("end", JObject [ ("latLng", str "34.1°, -118.1°") ]);
      ("topCandidate", JObject [ ("type", str "IN_PASSENGER_VEHICLE") ]);
      ("distanceMeters", int 17400) ].

Definition sampleVisitObject : JSON :=
  JObject
    [ ("topCandidate",
        JObject
          [ ("name", str "Cafe X");
            ("placeLocation", JObject [ ("latLng", str "34.0°, -118.0°") ]) ]) ].

(** A semantic segment with both keys. *)
Definition ambiguousSegment : JSON :=
  JObject
    [ ("startTime", str "2024-01-01T10:00:00Z");
      ("endTime", str "2024-01-01T11:00:00Z");
      ("visit", sampleVisitObject);
      ("activity", sampleActivity) ].

Definition ambiguousSegmentEvents : list ProcessedEvent :=
  Eval vm_compute in
    match processRecord (rt := SampleEngine.engine) 0 ambiguousSegment with
    | Ok evs => evs
    | _ => []
    end.

(** A raw signal with both keys. *)
Definition ambiguousSignal : JSON :=
  JObject
    [ ("position",
        JObject
          [ ("LatLng", str "34.0°, -118.0°");
            ("timestamp", str "2024-01-01T10:00:00Z") ]);
      ("visit", sampleVisitObject);
      ("activity", sampleActivity) ].

(** A visit on the prime meridian. *)
Definition greenwichVisit : JSON :=
  JObject
    [ ("placeVisit",
        JObject
          [ ("location",
              JObject
                [ ("latitudeE7", int 514769000);
                  ("longitudeE7", int 0);
                  ("name", str "Royal Observatory") ]);
            ("duration", JObject [ ("startTimestamp", str "2020-01-01T10:00:00Z") ]) ]) ].

(** A semantic activity that has an [end] coordinate and no [start]. *)
Definition driveSegment : JSON :=
  JObject
    [ ("startTime", str "2024-01-01T11:00:00Z");
      ("endTime", str "2024-01-01T11:30:00Z");
      ("activity", sampleActivity) ].


(** A path of 23 points, a raw signal, and a visit at latitude and longitude 0. *)
Definition pathPointAt : JSON :=
  JObject [ ("point", str "34.0°, -118.0°"); ("time", str "2024-01-01T10:05:00Z") ].

Definition pathSegment : JSON :=
  JObject
    [ ("startTime", str "2024-01-01T10:00:00Z");
      ("endTime", str "2024-01-01T11:00:00Z");
      ("timelinePath", JArray (replicate 23 pathPointAt)) ].

Definition nullIslandVisit : JSON :=
  JObject
    [ ("placeVisit",
        JObject
          [ ("location", JObject [ ("latitude", int 0); ("longitude", int 0) ]);
            ("duration", JObject [ ("startTimestamp", str "2020-01-01T10:00:00Z") ]) ]) ].

(** A document that hides its records two levels down. *)
Definition nestedDocument : JSON :=
  JObject
    [ ("meta", JObject [ ("tags", JArray [str "a"; str "b"]) ]);
      ("export", JObject [ ("records", JArray [greenwichVisit; legacyDrive; int 7]) ]) ].


(** ** More notions for the statistics *)



(** ** More notions for the records *)

(** The number of multiples of [k] below [m]. *)
Definition multiplesBelow (k m : nat) : nat := ((m + k - 1) / k)%nat.

(** The optional fields an event of each kind carries. *)
Definition fieldsFitKind (e : ProcessedEvent) : Prop :=
  match type e with
  | VISIT => distanceMeters e = None ∧ activityType e = None
  | MOVE => city e = None ∧ placeId e = None ∧ activityType e = Some (title e)
  | POINT =>
      distanceMeters e = None ∧ city e = None ∧ activityType e = None
      ∧ placeId e = None ∧ endTime e = startTime e
  end
  ∧ placeTypes e = None ∧ semanticType e = None.

(** [a] starts no later than [b]. *)
Definition startsNoLater (a b : ProcessedEvent) : Prop :=
  match startTime a, startTime b with
  | DateMs x, DateMs y => x <= y
  | _, _ => False
  end.


(** The events of some sample records, and a document whose records are out
    of order. *)
Definition pathSegmentEvents : list ProcessedEvent :=
  Eval vm_compute in
    match processRecord (rt := SampleEngine.engine) 3 pathSegment with
    | Ok evs => evs
    | _ => []
    end.

Definition driveSegmentEvents : list ProcessedEvent :=
  Eval vm_compute in
    match processRecord (rt := SampleEngine.engine) 7 driveSegment with
    | Ok evs => evs
    | _ => []
    end.

Definition twoSegmentDocument : JSON :=
  JObject [ ("semanticSegments", JArray [driveSegment; cafeSegment]) ].

Definition twoSegmentEvents : list ProcessedEvent :=
  Eval vm_compute in
    match parseTimelineData (rt := SampleEngine.engine) twoSegmentDocument with
    | Ok (Some (evs, _)) => evs
    | _ => []
    end.

(** A record of the newer export: a semantic segment or a raw signal. *)
Definition newerFormat (obj : JSON) : Prop :=
  truthy (startTimeOf obj) = true ∨ truthy (propOpt obj "position") = true.




(** ** Notions for the search of the record array *)

(** [node.filter(isLocationLike).length]. *)
Definition locationCount (items : list JSON) : nat :=
  length (filter (λ x, isLocationLike x = true) items).

(** [Array.isArray(data[key]) && data[key].length > 0]. *)
Definition holdsRecords (data : JSON) (key : string) : bool :=
  match propOpt data key with
  | JArray (_ :: _) => true
  | _ => false
  end.

(** [nestedIn d node items]: the array [items] lies [d] fields below [node]. *)
Inductive nestedIn : nat → JSON → list JSON → Prop :=
  | nested_here (items : list JSON) : nestedIn 0 (JArray items) items
  | nested_field (fields : list (string * JSON)) (k : string) (v : JSON)
      (d : nat) (items : list JSON) :
      (k, v) ∈ fields → nestedIn d v items → nestedIn (S d) (JObject fields) items.

(** ** Notions for addresses *)



(** ** Notions for coordinate strings *)



(** ** The callers of the parser: the map and the filters of the app *)

(** [array.filter((_, i) => keep(i))], from index [i] on. *)
Fixpoint filterIndexed {A : Type} (keep : nat → bool) (i : nat) (l : list A) : list A :=
  match l with
  | [] => []
  | x :: rest =>
      if keep i then x :: filterIndexed keep (S i) rest else filterIndexed keep (S i) rest
  end.

(** [Math.ceil(n / 500)]. *)
Definition thinningStep (n : nat) : nat := ((n + 499) / 500)%nat.

(** The markers of the Leaflet map. *)
Definition displayEvents (events : list ProcessedEvent) : list ProcessedEvent :=
  if (length events <? 500)%nat then events
  else filterIndexed (λ i, (i mod thinningStep (length events) =? 0)%nat) 0 events.

(** The markers of the Google map. *)
Definition displayEventsGoogle (events : list ProcessedEvent) : list ProcessedEvent :=
  if (500 <? length events)%nat
  then filterIndexed (λ i, (i mod thinningStep (length events) =? 0)%nat) 0 events
  else events.

(** [a >= b] and [a <= b] on dates. *)
Definition Date_ge (a b : Date) : bool :=
  match a, b with
  | DateMs x, DateMs y => y <=? x
  | _, _ => false
  end.

Definition Date_le (a b : Date) : bool := Date_ge b a.

(** [s.includes(t)]. *)
Fixpoint includes (s t : string) : bool :=
  String.prefix t s ||
  match s with
  | String _ rest => includes rest t
  | EmptyString => false
  end.

(** The place filter of the app: [{name: string, id?: string}]. *)
Record PlaceFilter : Type := mkPlaceFilter { filterName : string; filterId : option string }.

Section Callers.
Context {rt : JSRuntime}.
(** [String.prototype.toLowerCase], and [end.setHours(23, 59, 59, 999)] in
    the time zone of the browser. *)
Variable toLowerCase : string → string.
Variable setHours : Date → Date.

Definition matchesPlace (placeFilter : PlaceFilter) (e : ProcessedEvent) : bool :=
  let lowerTerm := toLowerCase (filterName placeFilter) in
  match string_truthy (filterId placeFilter), string_truthy (placeId e) with
  | Some i, Some p => String.eqb p i
  | _, _ => false
  end
  || includes (toLowerCase (title e)) lowerTerm
  || includes (toLowerCase (subtitle e)) lowerTerm.

Definition inDateRange (start end_ : Date) (e : ProcessedEvent) : bool :=
  Date_ge (startTime e) start && Date_le (startTime e) end_.

Definition dateFilter (startDate endDate : string) (result : list ProcessedEvent)
  : list ProcessedEvent :=
  if truthy (JString startDate) && truthy (JString endDate) then
    let start := newDate (JString startDate) in
    let end_ := setHours (newDate (JString endDate)) in
    filter (λ e, inDateRange start end_ e = true) result
  else result.

Definition placeFiltered (placeFilter : option PlaceFilter) (events : list ProcessedEvent)
  : list ProcessedEvent :=
  match placeFilter with
  | Some pf => filter (λ e, matchesPlace pf e = true) events
  | None => events
  end.

(** [filteredEvents] of [App.tsx]: the dates are ignored under a place filter
    with [searchAllTime]. *)
Definition filteredEvents (data : option (list ProcessedEvent))
    (placeFilter : option PlaceFilter) (searchAllTime : bool) (startDate endDate : string)
  : list ProcessedEvent :=
  match data with
  | None => []
  | Some events =>
      let result := placeFiltered placeFilter events in
      let shouldIgnoreDates := bool_decide (is_Some placeFilter) && searchAllTime in
      if negb shouldIgnoreDates then dateFilter startDate endDate result else result
  end.

(** [filteredEvents] of the later version of the app: the dates are ignored
    under [searchAllTime] alone. *)
Definition filteredEventsLater (data : option (list ProcessedEvent))
    (placeFilter : option PlaceFilter) (searchAllTime : bool) (startDate endDate : string)
  : list ProcessedEvent :=
  match data with
  | None => []
  | Some events =>
      let result := placeFiltered placeFilter events in
      if negb searchAllTime then dateFilter startDate endDate result else result
  end.
End Callers.

(** One step of the renaming loop of [enrichData]. *)
Definition renameEvent (pid realName : string) (address : option string)
    (e : ProcessedEvent) : ProcessedEvent :=
  if bool_decide (placeId e = Some pid) then
    {| id := id e;
       type := type e;
       title := realName;
       subtitle := default (subtitle e) (string_truthy address);
       startTime := startTime e;
       endTime := endTime e;
       lat := lat e;
       lng := lng e;
       raw := raw e;
       distanceMeters := distanceMeters e;
       city := match string_truthy (extractCity address) with
               | Some c => Some c
               | None => city e
               end;
       activityType := activityType e;
       placeId := placeId e;
       placeTypes := placeTypes e;
       semanticType := semanticType e |}
  else e.

(** The events after a place has got its name from the Places API. *)
Definition renamePlace (pid : string) (realName address : option string)
    (events : list ProcessedEvent) : list ProcessedEvent :=
  match string_truthy realName with
  | Some name_ => map (renameEvent pid name_ address) events
  | None => events
  end.

(** ** Tactics for runs of the parser *)

(** Splits a hypothesis about a run of the parser into its branches. *)
Ltac exec_cases H :=
  unfold mbind, exec_bind, mret, exec_ret, orElse,
    castString, castNumber, castOptString, castOptNumber in H;
  repeat (case_match; simplify_eq/=; try done).

Ltac only_event He :=
  repeat (apply elem_of_cons in He as [->|He]; [simpl|]); try by apply elem_of_nil in He.

(** * Properties *)

(** ** Lists *)

Lemma before_lookup {A : Type} (l : list A) (i j : nat) (x y : A) :
  (i < j)%nat → l !! i = Some x → l !! j = Some y → before l x y.
Proof.
  intros Hij Hi Hj.
  assert (drop (S i) l !! (j - S i)%nat = Some y) as Hy.
  { rewrite lookup_drop. rewrite <- Hj. f_equal. lia. }
  apply list_elem_of_lookup_2, list_elem_of_split in Hy as (l2 & l3 & Hy).
  exists (take i l), l2, l3. rewrite <- Hy. symmetry. by apply take_drop_middle.
Qed.

Lemma before_cons {A : Type} (l : list A) (a x y : A) :
  before (a :: l) x y ↔ (a = x ∧ y ∈ l) ∨ before l x y.
Proof.
  split.
  - intros ([|b l1] & l2 & l3 & E); simplify_eq/=.
    + left. split; [done|]. set_solver.
    + right. by exists l1, l2, l3.
  - intros [[-> (l2 & l3 & ->)%list_elem_of_split]|(l1 & l2 & l3 & ->)].
    + by exists [], l2, l3.
    + by exists (a :: l1), l2, l3.
Qed.

Lemma before_elem_of {A : Type} (l : list A) (x y : A) :
  before l x y → x ∈ l ∧ y ∈ l.
Proof. intros (l1 & l2 & l3 & ->). set_solver. Qed.

Lemma before_fmap {A B : Type} (f : A → B) (l : list A) (x y : A) :
  before l x y → before (f <$> l) (f x) (f y).
Proof.
  intros (l1 & l2 & l3 & ->). exists (f <$> l1), (f <$> l2), (f <$> l3).
  by rewrite !fmap_app, !fmap_cons, !fmap_app, !fmap_cons.
Qed.

Section BeforeFilter.
Context {A : Type} (P : A → Prop) `{!∀ x, Decision (P x)}.

Lemma before_filter_2 (l : list A) (x y : A) :
  P x → P y → before l x y → before (filter P l) x y.
Proof.
  intros Hx Hy (l1 & l2 & l3 & ->).
  exists (filter P l1), (filter P l2), (filter P l3).
  rewrite filter_app, filter_cons_True, filter_app, filter_cons_True; done.
Qed.

Lemma before_filter_1 (l : list A) (x y : A) :
  before (filter P l) x y → before l x y.
Proof.
  induction l as [|a l IH]; intros Hb.
  { destruct Hb as ([|??] & ? & ? & ?); done. }
  rewrite filter_cons in Hb. case_decide.
  - apply before_cons in Hb as [[-> Hy]|Hb]; apply before_cons.
    + left. split; [done|]. by apply list_elem_of_filter in Hy as [_ ?].
    + right. by apply IH.
  - apply before_cons. right. by apply IH.
Qed.
End BeforeFilter.

(** ** The sort: a sorted, stable permutation *)

Section SortFacts.
Context {A : Type} (cmp : A → A → Z).

Lemma sort_insert_Permutation (x : A) (l : list A) : sort_insert cmp x l ≡ₚ x :: l.
Proof.
  induction l as [|y l IH]; simpl; [done|].
  case_match; [done|]. rewrite IH. apply Permutation_swap.
Qed.

Lemma sort_Permutation (l : list A) : sort cmp l ≡ₚ l.
Proof.
  induction l as [|x l IH]; simpl; [done|].
  by rewrite sort_insert_Permutation, IH.
Qed.

(** Stability: the elements of one class of ties keep their order. *)
Lemma sort_insert_filter (P : A → Prop) `{!∀ x, Decision (P x)} (x : A) (l : list A) :
  (∀ a b, P a → P b → cmp a b <= 0) →
  filter P (sort_insert cmp x l) = filter P (x :: l).
Proof.
  intros Htie. induction l as [|y l IH]; simpl; [done|].
  destruct (Z.leb_spec (cmp x y) 0) as [Hle|Hgt]; [done|].
  rewrite (filter_cons _ y), IH, !filter_cons.
  destruct (decide (P y)) as [Hy|Hy], (decide (P x)) as [Hx|Hx]; try done.
  specialize (Htie x y Hx Hy). lia.
Qed.

Lemma sort_stable (P : A → Prop) `{!∀ x, Decision (P x)} (l : list A) :
  (∀ a b, P a → P b → cmp a b <= 0) →
  filter P (sort cmp l) = filter P l.
Proof.
  intros Htie. induction l as [|x l IH]; simpl; [done|].
  rewrite sort_insert_filter by done. by rewrite !filter_cons, IH.
Qed.

Context (cmp_total : ∀ a b, 0 < cmp a b → cmp b a <= 0).
Context (cmp_trans : ∀ a b c, cmp a b <= 0 → cmp b c <= 0 → cmp a c <= 0).

Lemma sort_insert_sorted (x : A) (l : list A) :
  StronglySorted (λ a b, cmp a b <= 0) l →
  StronglySorted (λ a b, cmp a b <= 0) (sort_insert cmp x l).
Proof.
  induction 1 as [|y l Hl IH Hy]; simpl.
  { repeat constructor. }
  destruct (Z.leb_spec (cmp x y) 0) as [Hle|Hgt].
  - constructor; [by constructor|]. constructor; [done|].
    eapply Forall_impl; [exact Hy|]. intros z Hz. by eapply cmp_trans.
  - constructor; [done|].
    rewrite sort_insert_Permutation. constructor; [|done]. by apply cmp_total.
Qed.

Lemma sort_sorted (l : list A) : StronglySorted (λ a b, cmp a b <= 0) (sort cmp l).
Proof.
  induction l as [|x l IH]; simpl; [constructor|]. by apply sort_insert_sorted.
Qed.
End SortFacts.

(** ** Maps: lookup, keys and counting *)

Section MapFacts.
Context {V : Type}.
Implicit Types (m : list (string * V)) (k : string).

Lemma get_set m k v k' :
  JSMap.get (JSMap.set m k v) k' = if decide (k = k') then Some v else JSMap.get m k'.
Proof.
  induction m as [|[k0 v0] m IH]; simpl.
  - destruct (String.eqb_spec k k'); case_decide; done.
  - destruct (String.eqb_spec k0 k) as [->|Hne]; simpl.
    + destruct (String.eqb_spec k k'); case_decide; done.
    + rewrite IH. destruct (String.eqb_spec k0 k'); case_decide; congruence.
Qed.

Lemma keys_set m k v :
  (JSMap.set m k v).*1 = if decide (k ∈ m.*1) then m.*1 else m.*1 ++ [k].
Proof.
  induction m as [|[k0 v0] m IH]; csimpl.
  - done.
  - destruct (String.eqb_spec k0 k) as [->|Hne]; csimpl.
    + rewrite decide_True by set_solver. done.
    + rewrite IH. destruct (decide (k ∈ m.*1)).
      * rewrite decide_True by set_solver. done.
      * rewrite decide_False by set_solver. done.
Qed.

Lemma get_None m k : JSMap.get m k = None ↔ k ∉ m.*1.
Proof.
  induction m as [|[k0 v0] m IH]; simpl; [set_solver|].
  destruct (String.eqb_spec k0 k) as [->|Hne]; [set_solver|].
  rewrite IH. set_solver.
Qed.

Lemma get_elem_of m k v : NoDup m.*1 → JSMap.get m k = Some v ↔ (k, v) ∈ m.
Proof.
  induction m as [|[k0 v0] m IH]; simpl; intros Hnd; [set_solver|].
  apply NoDup_cons in Hnd as [Hk0 Hnd].
  destruct (String.eqb_spec k0 k) as [->|Hne].
  - split; [intros [= ->]; set_solver|].
    intros [[= ->]|Hin]%elem_of_cons; [done|].
    destruct Hk0. apply list_elem_of_fmap. by exists (k, v).
  - rewrite IH by done. set_solver.
Qed.

Lemma lookup_list_to_map m k : (list_to_map m : gmap string V) !! k = JSMap.get m k.
Proof.
  induction m as [|[k0 v0] m IH]; simpl; [done|].
  destruct (String.eqb_spec k0 k) as [->|Hne].
  - by rewrite lookup_insert_eq.
  - by rewrite lookup_insert_ne.
Qed.
End MapFacts.

Lemma get_bump (m : list (string * nat)) (k k' : string) :
  JSMap.get (bump m k) k' =
    if decide (k = k') then Some (S (default 0%nat (JSMap.get m k))) else JSMap.get m k'.
Proof. apply get_set. Qed.

Lemma keys_bump (m : list (string * nat)) (k : string) :
  (bump m k).*1 = if decide (k ∈ m.*1) then m.*1 else m.*1 ++ [k].
Proof. apply keys_set. Qed.

Lemma NoDup_bump (m : list (string * nat)) (k : string) :
  NoDup m.*1 → NoDup (bump m k).*1.
Proof.
  intros Hnd. rewrite keys_bump. case_decide; [done|].
  apply NoDup_app. split_and!; [done|set_solver|apply NoDup_singleton].
Qed.

Lemma sum_set (m : list (string * nat)) (k : string) (v : nat) :
  (sum_list (JSMap.set m k v).*2 + default 0 (JSMap.get m k) = sum_list m.*2 + v)%nat.
Proof.
  induction m as [|[k0 v0] m IH]; csimpl; [lia|].
  destruct (String.eqb_spec k0 k) as [->|Hne]; csimpl; lia.
Qed.

Lemma sum_bump (m : list (string * nat)) (k : string) :
  sum_list (bump m k).*2 = S (sum_list m.*2).
Proof. unfold bump. pose proof (sum_set m k (S (default 0%nat (JSMap.get m k)))). lia. Qed.

Section TallyBy.
Context {E : Type} (key : E → option string).
Implicit Types (m : list (string * nat)) (l : list E) (k : string).

Lemma get_tally l m k :
  JSMap.get (fold_left (tallyStep key) l m) k =
    match occurrences key k l with
    | O => JSMap.get m k
    | n => Some (n + default 0 (JSMap.get m k))%nat
    end.
Proof.
  revert m. induction l as [|e l IH]; intros m; simpl; [done|].
  rewrite IH. unfold occurrences, tallyStep. rewrite filter_cons.
  destruct (key e) as [k0|] eqn:Hk.
  - rewrite get_bump. destruct (decide (k0 = k)) as [->|Hne].
    + rewrite decide_True by done. simpl.
      destruct (length _); simpl; f_equal; lia.
    + rewrite decide_False by congruence. done.
  - rewrite decide_False by done. done.
Qed.

Lemma keys_tally l m : (fold_left (tallyStep key) l m).*1 = m.*1 ++ firsts key m.*1 l.
Proof.
  revert m. induction l as [|e l IH]; intros m; simpl.
  { by rewrite app_nil_r. }
  rewrite IH. unfold tallyStep. destruct (key e) as [k|]; [|done].
  rewrite keys_bump. case_decide; [done|]. by rewrite <- app_assoc.
Qed.

Lemma NoDup_tally l m : NoDup m.*1 → NoDup (fold_left (tallyStep key) l m).*1.
Proof.
  revert m. induction l as [|e l IH]; intros m Hnd; simpl; [done|].
  apply IH. unfold tallyStep. destruct (key e); [by apply NoDup_bump|done].
Qed.

Lemma sum_tally l m :
  sum_list (fold_left (tallyStep key) l m).*2 = (sum_list m.*2 + length (omap key l))%nat.
Proof.
  revert m. induction l as [|e l IH]; intros m; csimpl; [lia|].
  rewrite IH. unfold tallyStep. destruct (key e); csimpl; [rewrite sum_bump|]; lia.
Qed.

Lemma elem_of_firsts seen l k :
  k ∈ firsts key seen l → (k ∉ seen) ∧ occurrences key k l ≠ 0%nat.
Proof.
  unfold occurrences.
  revert seen. induction l as [|e l IH]; intros seen; simpl; [set_solver|].
  rewrite filter_cons. destruct (key e) as [k0|] eqn:Hk.
  - destruct (decide (k0 ∈ seen)).
    + intros [? ?]%IH. split; [done|]. case_decide; simpl; lia.
    + intros [->|[? ?]%IH]%elem_of_cons.
      * rewrite decide_True by done. done.
      * split; [set_solver|]. case_decide; simpl; lia.
  - intros [? ?]%IH. split; [done|]. by rewrite decide_False.
Qed.

Lemma firstSeen_before seen l k1 k2 :
  before (firsts key seen l) k1 k2 → (firstSeen key k1 l < firstSeen key k2 l)%nat.
Proof.
  revert seen. induction l as [|e l IH]; intros seen; simpl.
  { intros ([|??] & ? & ? & ?); done. }
  destruct (key e) as [k0|] eqn:Hk.
  - destruct (decide (k0 ∈ seen)) as [Hseen|Hseen].
    + intros Hb. pose proof (before_elem_of _ _ _ Hb) as [[H1 _]%elem_of_firsts [H2 _]%elem_of_firsts].
      rewrite !decide_False by (intros [= ->]; done).
      apply IH in Hb. lia.
    + intros [[-> Hin]|Hb]%before_cons.
      * apply elem_of_firsts in Hin as [Hin _].
        rewrite decide_True by done. rewrite decide_False by (intros [= ->]; set_solver). lia.
      * pose proof (before_elem_of _ _ _ Hb) as [[H1 _]%elem_of_firsts [H2 _]%elem_of_firsts].
        rewrite !decide_False by (intros [= ->]; set_solver).
        apply IH in Hb. lia.
  - intros Hb. rewrite !decide_False by done. apply IH in Hb. lia.
Qed.

End TallyBy.

(** ** The accumulators *)

Lemma fold_step (l : list ProcessedEvent) (a : Acc) :
  fold_left step l a =
    {| totalDistanceMeters := fold_left addDistance l (totalDistanceMeters a);
       placeCounts := fold_left (tallyStep cityKey) l (placeCounts a);
       visitCountsByName := fold_left (tallyStep titleKey) l (visitCountsByName a);
       activityCounts := fold_left (tallyStep activityKey) l (activityCounts a);
       uniquePlaceTitles := fold_left titleStep l (uniquePlaceTitles a);
       minDate := fold_left minStep l (minDate a);
       maxDate := fold_left maxStep l (maxDate a) |}.
Proof.
  revert a. induction l as [|e l IH]; intros a; simpl.
  { by destruct a. }
  rewrite IH. unfold step, addCity, addActivity, tallyStep, cityKey, titleKey, activityKey; simpl.
  f_equal; by destruct (isVisit e), (isMove e).
Qed.

(** [calculateStats] on a non-empty list, accumulator by accumulator. *)
Lemma calculateStats_cons (now : Date) (e : ProcessedEvent) (l : list ProcessedEvent) :
  let events := e :: l in
  calculateStats now events =
    {| totalDistanceKm :=
         Math_round (number_div (fold_left addDistance events (Num 0)) 1000);
       totalVisits := length (filter (λ e, isVisit e = true) events);
       uniquePlaces := size (fold_left titleStep events ∅);
       topCities :=
         toCityCount <$> take 5 (sort byCountDesc (fold_left (tallyStep cityKey) events []));
       activityBreakdown :=
         match toActivityCount <$> fold_left (tallyStep activityKey) events [] with
         | [] => [mkActivityCount "Recorded Points" (length events)]
         | _ => toActivityCount <$> fold_left (tallyStep activityKey) events []
         end;
       dateRange :=
         mkDateRange (fold_left minStep events (DateMs maxInstant))
                     (fold_left maxStep events (DateMs (- maxInstant)));
       placeVisitCounts := list_to_map (fold_left (tallyStep titleKey) events []) |}.
Proof. intros events. unfold calculateStats, events. by rewrite fold_step. Qed.

(** The set of titles holds the keys of the title counter. *)
Lemma titles_keys (l : list ProcessedEvent) (s : gset string) (m : list (string * nat)) :
  s = list_to_set m.*1 →
  fold_left titleStep l s = list_to_set (fold_left (tallyStep titleKey) l m).*1.
Proof.
  revert s m. induction l as [|e l IH]; intros s m Hs; simpl; [done|].
  apply IH. unfold titleStep, tallyStep, titleKey. destruct (isVisit e); [|done].
  rewrite keys_bump. subst s. case_decide.
  - apply set_eq. intros x. rewrite elem_of_union, !elem_of_list_to_set. set_solver.
  - rewrite list_to_set_app_L. set_solver.
Qed.

Lemma length_omap_titleKey (l : list ProcessedEvent) :
  length (omap titleKey l) = length (filter (λ e, isVisit e = true) l).
Proof.
  induction l as [|e l IH]; csimpl; [done|].
  rewrite filter_cons. unfold titleKey at 1. destruct (isVisit e); csimpl; by rewrite IH.
Qed.

(** A non-empty city is counted under its own name. *)
Lemma cityKey_visitCity (e : ProcessedEvent) (c : string) :
  c ≠ EmptyString → cityKey e = Some c ↔ visitCity e = Some c.
Proof.
  intros Hc. unfold cityKey, visitCity. destruct (isVisit e); [|done].
  destruct (city e) as [[|??]|]; simpl; naive_solver.
Qed.

Lemma cityKey_nonempty (e : ProcessedEvent) : cityKey e ≠ Some EmptyString.
Proof.
  unfold cityKey. destruct (isVisit e); [|done]. by destruct (city e) as [[|??]|].
Qed.

Lemma occurrences_cityKey (l : list ProcessedEvent) (c : string) :
  c ≠ EmptyString → occurrences cityKey c l = occurrences visitCity c l.
Proof.
  intros Hc. unfold occurrences. induction l as [|e l IH]; [done|].
  rewrite !filter_cons. pose proof (cityKey_visitCity e c Hc).
  repeat case_decide; simpl; naive_solver.
Qed.

Lemma firstSeen_cityKey (l : list ProcessedEvent) (c : string) :
  c ≠ EmptyString → firstSeen cityKey c l = firstSeen visitCity c l.
Proof.
  intros Hc. induction l as [|e l IH]; simpl; [done|].
  pose proof (cityKey_visitCity e c Hc). repeat case_decide; naive_solver.
Qed.

Lemma occurrences_cityKey_empty (l : list ProcessedEvent) : occurrences cityKey EmptyString l = 0%nat.
Proof.
  unfold occurrences. induction l as [|e l IH]; [done|].
  rewrite filter_cons, decide_False; [done|apply cityKey_nonempty].
Qed.

(** ** The statistics of [calculateStats] *)

Lemma sumValues_list_to_map (entries : list (string * nat)) :
  NoDup entries.*1 → sumValues (list_to_map entries) = sum_list entries.*2.
Proof.
  intros Hnd. unfold sumValues. rewrite map_fold_foldr.
  transitivity (foldr (uncurry (λ (_ : string) (v acc : nat), (v + acc)%nat)) 0%nat entries).
  - apply (foldr_permutation_proper (=)); [apply _|intros [??] [??] ?; simpl; lia|].
    by apply map_to_list_to_map.
  - clear Hnd. induction entries as [|[k v] entries IH]; csimpl; [done|]. by rewrite IH.
Qed.

(** C10. The visit counts add up to [totalVisits], and [placeVisitCounts] has
    one key for each unique place. *)
Theorem placeVisitCounts_coherent (now : Date) (events : list ProcessedEvent) :
  sumValues (placeVisitCounts (calculateStats now events))
    = totalVisits (calculateStats now events)
  ∧ size (placeVisitCounts (calculateStats now events))
    = uniquePlaces (calculateStats now events).
Proof.
  destruct events as [|e l]; [done|].
  rewrite calculateStats_cons. cbv zeta. cbn [placeVisitCounts totalVisits uniquePlaces].
  set (events := e :: l).
  assert (NoDup (fold_left (tallyStep titleKey) events []).*1) as Hnd.
  { apply NoDup_tally. constructor. }
  split.
  - rewrite sumValues_list_to_map, sum_tally by done.
    apply length_omap_titleKey.
  - rewrite map_size_list_to_map by done.
    rewrite (titles_keys events ∅ []) by done.
    rewrite size_list_to_set by done. by rewrite length_fmap.
Qed.

Lemma byCountDesc_le (a b : string * nat) : byCountDesc a b <= 0 ↔ (snd b ≤ snd a)%nat.
Proof. unfold byCountDesc. lia. Qed.

Lemma StronglySorted_take {A : Type} (R : relation A) (n : nat) (l : list A) :
  StronglySorted R l → StronglySorted R (take n l).
Proof. rewrite <- (take_drop n l) at 1. apply StronglySorted_app_1_l. Qed.

(** The city counter holds, for each city, the number of visits to it. *)
Lemma placeCounts_entry (events : list ProcessedEvent) (c : string) (n : nat) :
  (c, n) ∈ fold_left (tallyStep cityKey) events [] →
  c ≠ EmptyString ∧ n = occurrences visitCity c events.
Proof.
  intros Hin. apply get_elem_of in Hin; [|apply NoDup_tally; constructor].
  rewrite get_tally in Hin. simpl in Hin.
  assert (c ≠ EmptyString) as Hc.
  { intros ->. by rewrite occurrences_cityKey_empty in Hin. }
  split; [done|]. rewrite <- occurrences_cityKey by done.
  destruct (occurrences cityKey c events); simplify_eq/=. lia.
Qed.

(** C4. [topCities] has at most five entries, each with the number of Visit
    events carrying its city; the counts descend, and cities with equal counts
    stand in the order in which the input first shows them. *)
Theorem topCities_spec (now : Date) (events : list ProcessedEvent) :
  (length (topCities (calculateStats now events)) ≤ 5)%nat
  ∧ (∀ c, c ∈ topCities (calculateStats now events) →
       count c = occurrences visitCity (name c) events)
  ∧ StronglySorted (λ a b, (count b ≤ count a)%nat) (topCities (calculateStats now events))
  ∧ (∀ i j a b, (i < j)%nat →
       topCities (calculateStats now events) !! i = Some a →
       topCities (calculateStats now events) !! j = Some b →
       count a = count b →
       (firstSeen visitCity (name a) events < firstSeen visitCity (name b) events)%nat).
Proof.
  destruct events as [|e l].
  { simpl. split_and!; [lia|set_solver|constructor|done]. }
  rewrite calculateStats_cons. cbv zeta. cbn [topCities].
  set (events := e :: l). set (entries := fold_left (tallyStep cityKey) events []).
  assert (∀ p, p ∈ take 5 (sort byCountDesc entries) → p ∈ entries) as Hsub.
  { intros p Hp%subseteq_take. by rewrite sort_Permutation in Hp. }
  split_and!.
  - rewrite length_fmap, length_take. lia.
  - intros c ([k n] & -> & Hp%Hsub)%list_elem_of_fmap. simpl.
    by apply placeCounts_entry in Hp as [_ ->].
  - apply (StronglySorted_fmap _ (λ a b, byCountDesc a b <= 0)).
    { intros ??. by rewrite byCountDesc_le. }
    apply StronglySorted_take, sort_sorted; unfold byCountDesc; lia.
  - intros i j a b Hij Ha Hb Hab.
    apply list_lookup_fmap_Some in Ha as ([ka na] & -> & Ha).
    apply list_lookup_fmap_Some in Hb as ([kb nb] & -> & Hb).
    simpl in Hab. subst nb. cbn [toCityCount name fst].
    pose proof (Hsub _ (list_elem_of_lookup_2 _ _ _ Ha)) as [Hka _]%placeCounts_entry.
    pose proof (Hsub _ (list_elem_of_lookup_2 _ _ _ Hb)) as [Hkb _]%placeCounts_entry.
    apply lookup_take_Some in Ha as [Ha _]. apply lookup_take_Some in Hb as [Hb _].
    pose proof (before_lookup _ _ _ _ _ Hij Ha Hb) as Hbefore.
    apply (before_filter_2 (λ p, snd p = na)) in Hbefore; [|done..].
    rewrite sort_stable in Hbefore by (unfold byCountDesc; intros ?? -> ->; lia).
    apply before_filter_1, (before_fmap fst) in Hbefore.
    unfold entries in Hbefore. rewrite keys_tally in Hbefore.
    apply (firstSeen_before cityKey [] events) in Hbefore. cbn [fst] in Hbefore.
    by rewrite <- !firstSeen_cityKey.
Qed.

(** ** The date range *)

Lemma fold_minStep (l : list ProcessedEvent) (a : Z) :
  fold_left minStep l (DateMs a) = DateMs (fold_left Z.min (startTimes l) a).
Proof.
  revert a. induction l as [|e l IH]; intros a; [done|].
  unfold startTimes. csimpl. fold (startTimes l). unfold minStep at 2.
  destruct (startTime e) as [|s]; cbn [instantOf Date_lt fold_left]; [apply IH|].
  destruct (Z.ltb_spec s a).
  - rewrite IH. do 2 f_equal. lia.
  - rewrite IH. do 2 f_equal. lia.
Qed.

Lemma fold_maxStep (l : list ProcessedEvent) (a : Z) :
  fold_left maxStep l (DateMs a) = DateMs (fold_left Z.max (endTimes l) a).
Proof.
  revert a. induction l as [|e l IH]; intros a; [done|].
  unfold endTimes. csimpl. fold (endTimes l). unfold maxStep at 2, Date_gt.
  destruct (endTime e) as [|s]; cbn [instantOf Date_lt fold_left]; [apply IH|].
  destruct (Z.ltb_spec a s).
  - rewrite IH. do 2 f_equal. lia.
  - rewrite IH. do 2 f_equal. lia.
Qed.

Lemma fold_min_spec (l : list Z) (a : Z) :
  fold_left Z.min l a <= a
  ∧ (∀ x, x ∈ l → fold_left Z.min l a <= x)
  ∧ (fold_left Z.min l a = a ∨ fold_left Z.min l a ∈ l).
Proof.
  revert a. induction l as [|y l IH]; intros a; simpl.
  { split_and!; [lia|set_solver|by left]. }
  destruct (IH (Z.min a y)) as (Hle & Hall & Hin). split_and!.
  - lia.
  - intros x [->|Hx]%elem_of_cons; [lia|by apply Hall].
  - destruct Hin as [Heq|Hin]; [|right; set_solver].
    rewrite Heq. destruct (Z.min_spec a y) as [[_ ->]|[_ ->]]; [by left|right; set_solver].
Qed.

Lemma fold_max_spec (l : list Z) (a : Z) :
  a <= fold_left Z.max l a
  ∧ (∀ x, x ∈ l → x <= fold_left Z.max l a)
  ∧ (fold_left Z.max l a = a ∨ fold_left Z.max l a ∈ l).
Proof.
  revert a. induction l as [|y l IH]; intros a; simpl.
  { split_and!; [lia|set_solver|by left]. }
  destruct (IH (Z.max a y)) as (Hle & Hall & Hin). split_and!.
  - lia.
  - intros x [->|Hx]%elem_of_cons; [lia|by apply Hall].
  - destruct Hin as [Heq|Hin]; [|right; set_solver].
    rewrite Heq. destruct (Z.max_spec a y) as [[_ ->]|[_ ->]]; [right; set_solver|by left].
Qed.

Lemma startTimes_valid (events : list ProcessedEvent) (x : Z) :
  Forall (λ e, ValidInstant (startTime e) ∧ ValidInstant (endTime e)) events →
  x ∈ startTimes events → - maxInstant <= x <= maxInstant.
Proof.
  intros Hall (e & He & Hx)%list_elem_of_omap.
  rewrite Forall_forall in Hall. destruct (Hall e He) as [Hs _].
  destruct (startTime e); simplify_eq/=. done.
Qed.

Lemma endTimes_valid (events : list ProcessedEvent) (x : Z) :
  Forall (λ e, ValidInstant (startTime e) ∧ ValidInstant (endTime e)) events →
  x ∈ endTimes events → - maxInstant <= x <= maxInstant.
Proof.
  intros Hall (e & He & Hx)%list_elem_of_omap.
  rewrite Forall_forall in Hall. destruct (Hall e He) as [_ Hs].
  destruct (endTime e); simplify_eq/=. done.
Qed.

(** C1, as the code has it. For a non-empty list of events with valid
    timestamps, [dateRange.start] is the least [startTime] and [dateRange.end]
    the greatest [endTime]; where no event ends before it starts, that is also
    the greatest of all the start and end times. *)
Theorem dateRange_bounds (now : Date) (events : list ProcessedEvent) :
  events ≠ [] →
  Forall (λ e, ValidInstant (startTime e) ∧ ValidInstant (endTime e)) events →
  ∃ lo hi,
    dateRange (calculateStats now events) = mkDateRange (DateMs lo) (DateMs hi)
    ∧ minimumOf lo (startTimes events)
    ∧ maximumOf hi (endTimes events)
    ∧ (Forall (λ e, Date_gt (startTime e) (endTime e) = false) events →
       maximumOf hi (startTimes events ++ endTimes events)).
Proof.
  intros Hne Hvalid. destruct events as [|e l]; [done|]. clear Hne.
  rewrite calculateStats_cons. cbv zeta. cbn [dateRange].
  set (events := e :: l) in *.
  rewrite fold_minStep, fold_maxStep.
  destruct (fold_min_spec (startTimes events) maxInstant) as (Hlo1 & Hlo2 & Hlo3).
  destruct (fold_max_spec (endTimes events) (- maxInstant)) as (Hhi1 & Hhi2 & Hhi3).
  assert (∃ s, s ∈ startTimes events) as [s Hs].
  { apply Forall_cons in Hvalid as [[Hv _] _]. destruct (startTime e) as [|s] eqn:E; [done|].
    exists s. apply list_elem_of_omap. exists e. rewrite E. set_solver. }
  assert (∃ t, t ∈ endTimes events) as [t Ht].
  { apply Forall_cons in Hvalid as [[_ Hv] _]. destruct (endTime e) as [|t] eqn:E; [done|].
    exists t. apply list_elem_of_omap. exists e. rewrite E. set_solver. }
  assert (maximumOf (fold_left Z.max (endTimes events) (- maxInstant)) (endTimes events))
    as Hmax.
  { split; [|done]. destruct Hhi3 as [Heq|]; [|done].
    pose proof (endTimes_valid _ _ Hvalid Ht). pose proof (Hhi2 _ Ht).
    replace (fold_left Z.max (endTimes events) (- maxInstant)) with t by lia. done. }
  eexists _, _. split_and!; [done| |done|].
  - split; [|done]. destruct Hlo3 as [Heq|]; [|done].
    pose proof (startTimes_valid _ _ Hvalid Hs). pose proof (Hlo2 _ Hs).
    replace (fold_left Z.min (startTimes events) maxInstant) with s by lia. done.
  - intros Hord. destruct Hmax as [Hin Hle]. split; [set_solver|].
    intros x [Hx|Hx]%elem_of_app; [|by apply Hle].
    apply list_elem_of_omap in Hx as (e' & He' & Hx).
    rewrite Forall_forall in Hord, Hvalid.
    specialize (Hord e' He'). destruct (Hvalid e' He') as [_ Hend].
    unfold Date_gt in Hord. destruct (startTime e') as [|s']; [done|].
    destruct (endTime e') as [|t'] eqn:E; [done|]. simplify_eq/=.
    assert (t' ∈ endTimes events) as Ht'%Hle.
    { apply list_elem_of_omap. exists e'. by rewrite E. }
    lia.
Qed.

(** ** Reordering the events *)







Section TallyPermutation.
Context {E : Type} (key : E → option string).




Lemma occurrences_omap (l : list E) (k : string) :
  occurrences key k l ≠ 0%nat ↔ k ∈ omap key l.
Proof.
  unfold occurrences. induction l as [|e l IH]; csimpl; [set_solver|].
  rewrite filter_cons. destruct (key e) as [k0|].
  - destruct (decide (Some k0 = Some k)) as [[= ->]|Hne]; simpl; [set_solver|].
    rewrite IH. set_solver.
  - rewrite decide_False by done. done.
Qed.

(** The keys of the counter are the keys that occur. *)
Lemma tally_keys_set (l : list E) :
  (list_to_set (fold_left (tallyStep key) l []).*1 : gset string) = list_to_set (omap key l).
Proof.
  apply set_eq. intros k. rewrite !elem_of_list_to_set, <- occurrences_omap.
  pose proof (get_None (fold_left (tallyStep key) l []) k) as Hget.
  rewrite get_tally in Hget. simpl in Hget.
  destruct (occurrences key k l); split; try done.
  - intros Hin. by apply Hget in Hin.
  - intros _. apply dec_stable. intros Hin. by apply Hget in Hin.
Qed.
End TallyPermutation.




(** ** The sample day *)

Example sampleDay_stats :
  let s := calculateStats (DateMs 0) sampleDay in
  totalDistanceKm s = Num (19 # 1)
  ∧ totalVisits s = 3%nat
  ∧ uniquePlaces s = 2%nat
  ∧ topCities s = [mkCityCount "Los Angeles" 2; mkCityCount "Pasadena" 1]
  ∧ activityBreakdown s
    = [mkActivityCount "WALKING" 1; mkActivityCount "IN PASSENGER VEHICLE" 1]
  ∧ dateRange s = mkDateRange (DateMs tenOClock) (DateMs (tenOClock + 7 * hour))
  ∧ placeVisitCounts s !! "Cafe X" = Some 2%nat.
Proof. vm_compute. by split_and!. Qed.

Lemma dateRange_bounds_witness :
  ∃ lo hi,
    dateRange (calculateStats (DateMs 0) sampleDay) = mkDateRange (DateMs lo) (DateMs hi)
    ∧ minimumOf lo (startTimes sampleDay)
    ∧ maximumOf hi (endTimes sampleDay)
    ∧ (Forall (λ e, Date_gt (startTime e) (endTime e) = false) sampleDay →
       maximumOf hi (startTimes sampleDay ++ endTimes sampleDay)).
Proof.
  apply (dateRange_bounds (DateMs 0) sampleDay); [done|].
  repeat constructor; simpl; unfold maxInstant, tenOClock, hour; lia.
Defined.

(** C1 as stated fails: [dateRange.end] is the greatest [endTime] and takes no
    account of a later [startTime]. *)
Lemma dateRange_end_ignores_startTime :
  [endsBeforeStart] ≠ []
  ∧ end_ (dateRange (calculateStats (DateMs 0) [endsBeforeStart])) = DateMs tenOClock
  ∧ ¬ maximumOf tenOClock (startTimes [endsBeforeStart] ++ endTimes [endsBeforeStart]).
Proof.
  split_and!; [done|done|]. intros [_ Hmax].
  specialize (Hmax (tenOClock + hour)). unfold tenOClock, hour in Hmax.
  assert (1704103200000 + 3600000 <= 1704103200000); [|lia].
  apply Hmax. vm_compute. left.
Qed.



(** ** The sample engine at work *)

Example cafeDocument_parsed :
  ∃ e stats,
    parseTimelineData (rt := SampleEngine.engine) cafeDocument = Ok (Some ([e], stats))
    ∧ id e = "v-0" ∧ type e = VISIT ∧ title e = "Cafe X"
    ∧ subtitle e = "Visit duration: 60m"
    ∧ city e = Some "Los Angeles"
    ∧ startTime e = DateMs tenOClock
    ∧ lat e = Num (34 # 1) ∧ lng e = Num (-118 # 1)
    ∧ totalVisits stats = 1%nat ∧ uniquePlaces stats = 1%nat
    ∧ topCities stats = [mkCityCount "Los Angeles" 1].
Proof. eexists _, _. split; [vm_compute; reflexivity|]. vm_compute. by split_and!. Qed.

Example extractCity_examples :
  extractCity (Some "123 Main St, Springfield, IL 62704, USA") = Some "Springfield"
  ∧ extractCity (Some "Springfield, IL") = Some "Springfield"
  ∧ extractCity (Some "Springfield") = Some "Springfield"
  ∧ extractCity (Some EmptyString) = None
  ∧ extractCity None = None.
Proof. vm_compute. by split_and!. Qed.

Example parseLatLngString_example :
  parseLatLngString (rt := SampleEngine.engine) (str "34.4102107°, -119.8555576°")
    = Some (Num (Qred (344102107 # 10000000)), Num (Qred (-1198555576 # 10000000)))
  ∧ parseLatLngString (rt := SampleEngine.engine) (str "34.4102107, -119.8555576") = None
  ∧ parseLatLngString (rt := SampleEngine.engine) (int 34) = None.
Proof. vm_compute. by split_and!. Qed.

Example decimation_example :
  match processRecord (rt := SampleEngine.engine) 0 pathSegment with
  | Ok evs => Some (id <$> evs)
  | _ => None
  end = Some ["tp-0-0"; "tp-0-5"; "tp-0-10"; "tp-0-15"; "tp-0-20"].
Proof. vm_compute. reflexivity. Qed.

Example zero_coordinates_example :
  parseTimelineData (rt := SampleEngine.engine) (JArray [nullIslandVisit]) = Ok None.
Proof. vm_compute. reflexivity. Qed.

Example findDataArray_examples :
  findDataArray nestedDocument = Some [greenwichVisit; legacyDrive; int 7]
  ∧ findDataArray (JObject [ ("locations", JArray []) ]) = None
  ∧ findDataArray (JArray []) = Some []
  ∧ findDataArray JNull = None
  ∧ findDataArray (str "text") = None.
Proof. vm_compute. by split_and!. Qed.

Example parseTimelineData_null_examples :
  parseTimelineData (rt := SampleEngine.engine) (JObject []) = Ok None
  ∧ parseTimelineData (rt := SampleEngine.engine) (JArray []) = Ok None
  ∧ parseTimelineData (rt := SampleEngine.engine) (JArray [cafeSegment; JNull]) = Ok None
  ∧ parseTimelineData (rt := SampleEngine.engine) (JArray [int 7; str "x"]) = Ok None.
Proof. vm_compute. by split_and!. Qed.

Example e7ToFloat_example :
  number_eqv (e7ToFloat (rt := SampleEngine.engine) (int 123456789)) (Num (123456789 # 10000000)).
Proof. vm_compute. reflexivity. Qed.

(** ** The records of the normalizer *)

Section Records.
Context {rt : JSRuntime}.
Implicit Types (index : nat) (obj : JSON) (evs : list ProcessedEvent).

Lemma semanticVisit_type index obj visit start end' evs e :
  semanticVisit index obj visit start end' = Ok evs → e ∈ evs → type e = VISIT.
Proof. unfold semanticVisit. intros H He. exec_cases H; by only_event He. Qed.

Lemma semanticActivity_type index obj activity start end' evs e :
  semanticActivity index obj activity start end' = Ok evs → e ∈ evs → type e = MOVE.
Proof. unfold semanticActivity. intros H He. exec_cases H; by only_event He. Qed.

Lemma pathPoint_type index st pIdx pathPt evs e :
  pathPoint index st pIdx pathPt = Ok evs → e ∈ evs → type e = POINT.
Proof. unfold pathPoint. intros H He. exec_cases H; by only_event He. Qed.

Lemma timelinePath_type index st pIdx path evs e :
  timelinePath index st pIdx path = Ok evs → e ∈ evs → type e = POINT.
Proof.
  revert pIdx evs. induction path as [|pt path IH]; intros pIdx evs H He; simpl in H.
  { simplify_eq. by apply elem_of_nil in He. }
  destruct (pathPoint index st pIdx pt) as [pushed| |] eqn:E1; simpl in H; try done.
  destruct (timelinePath index st (S pIdx) path) as [more| |] eqn:E2; simpl in H; try done.
  simplify_eq. apply elem_of_app in He as [He|He].
  - by eapply pathPoint_type.
  - by eapply IH.
Qed.

Lemma rawSignal_type index obj position evs e :
  rawSignal index obj position = Ok evs → e ∈ evs → type e = POINT.
Proof. unfold rawSignal. intros H He. exec_cases H; by only_event He. Qed.

Lemma legacyVisit_type index obj placeVisit evs e :
  legacyVisit index obj placeVisit = Ok evs → e ∈ evs → type e = VISIT.
Proof. unfold legacyVisit. intros H He. exec_cases H; by only_event He. Qed.

Lemma legacyActivity_type index obj segment evs e :
  legacyActivity index obj segment = Ok evs → e ∈ evs → type e = MOVE.
Proof. unfold legacyActivity. intros H He. exec_cases H; by only_event He. Qed.

Lemma prop_truthy obj k : truthy obj = true → prop obj k = Ok (propOpt obj k).
Proof. by destruct obj. Qed.

(** A record that is neither [null] nor [undefined] is handled by the first
    branch whose test it passes. *)
Lemma processRecord_branches index obj :
  obj ≠ JNull → obj ≠ JUndefined →
  processRecord index obj =
    if truthy (startTimeOf obj) then semanticSegment index obj (startTimeOf obj) (endTimeOf obj)
    else if truthy (propOpt obj "position") then rawSignal index obj (propOpt obj "position")
    else legacyRecord index obj.
Proof.
  intros H1 H2. unfold processRecord, recordStartTime, recordEndTime, startTimeOf, endTimeOf,
    orElse, or_.
  destruct obj; try done; simpl;
    repeat (case_match; simpl; try done).
Qed.

End Records.

Section Branches.
Context {rt : JSRuntime}.
Implicit Types (index : nat) (fields : list (string * JSON)) (evs : list ProcessedEvent).

Lemma semanticSegment_branches index fields st et :
  let obj := JObject fields in
  semanticSegment index obj st et =
    if truthy (propOpt obj "visit")
    then semanticVisit index obj (propOpt obj "visit") (newDate st) (newDate (or_ et st))
    else if truthy (propOpt obj "activity")
    then semanticActivity index obj (propOpt obj "activity") (newDate st) (newDate (or_ et st))
    else match propOpt obj "timelinePath" with
         | JArray pts => timelinePath index st 0 pts
         | _ => Ok []
         end.
Proof. done. Qed.

Lemma legacyRecord_branches index fields :
  let obj := JObject fields in
  legacyRecord index obj =
    if truthy (placeVisitOf obj) then legacyVisit index obj (placeVisitOf obj)
    else if truthy (activitySegmentOf obj)
    then legacyActivity index obj (activitySegmentOf obj)
    else Ok [].
Proof.
  simpl. unfold legacyRecord, placeVisitOf, activitySegmentOf, orElse, or_. simpl.
  repeat (case_match; simpl; try done).
Qed.

Lemma propOpt_object obj k fs : propOpt obj k = JObject fs → ∃ fields, obj = JObject fields.
Proof. destruct obj; try done. by eexists. Qed.

(** C7, as the code has it. A record that holds both a [visit] object and an
    [activity] object never gives a Move: it gives a Visit, except that a
    record with no start time and a [position] goes to the raw-signal branch
    and gives a Point. *)
Theorem visit_and_activity_never_Move index obj visitFields activityFields evs e :
  propOpt obj "visit" = JObject visitFields →
  propOpt obj "activity" = JObject activityFields →
  processRecord index obj = Ok evs →
  e ∈ evs →
  type e ≠ MOVE
  ∧ (type e = VISIT
     ∨ (type e = POINT
        ∧ truthy (startTimeOf obj) = false
        ∧ truthy (propOpt obj "position") = true)).
Proof.
  intros Hv Ha Hrun He.
  destruct (propOpt_object _ _ _ Hv) as [fields ->].
  rewrite processRecord_branches in Hrun by done.
  destruct (truthy (startTimeOf (JObject fields))) eqn:Hst.
  - rewrite semanticSegment_branches in Hrun. cbv zeta in Hrun.
    rewrite Hv in Hrun. cbn [truthy] in Hrun.
    apply (semanticVisit_type _ _ _ _ _ _ e) in Hrun; [|done].
    rewrite Hrun. split; [done|by left].
  - destruct (truthy (propOpt (JObject fields) "position")) eqn:Hpos.
    + apply (rawSignal_type _ _ _ _ e) in Hrun; [|done].
      rewrite Hrun. split; [done|by right].
    + rewrite legacyRecord_branches in Hrun. cbv zeta in Hrun.
      assert (truthy (placeVisitOf (JObject fields)) = true) as Hpv.
      { unfold placeVisitOf, or_. rewrite Hv.
        by destruct (truthy (propOpt (JObject fields) "placeVisit")) eqn:E. }
      rewrite Hpv in Hrun.
      apply (legacyVisit_type _ _ _ _ e) in Hrun; [|done].
      rewrite Hrun. split; [done|by left].
Qed.

Lemma isZero_falsy v : isZero v → truthy v = false.
Proof.
  intros (q & -> & Hq). simpl. apply negb_false_iff, Z.eqb_eq.
  unfold Qeq in Hq. simpl in Hq. lia.
Qed.

(** C8. A legacy record whose resolved latitude or longitude is zero gives
    no event. *)
Theorem legacy_zero_coordinate_dropped index fields la ln :
  truthy (startTimeOf (JObject fields)) = false →
  truthy (propOpt (JObject fields) "position") = false →
  legacyCoordinates (JObject fields) = Some (la, ln) →
  isZero la ∨ isZero ln →
  processRecord index (JObject fields) = Ok [].
Proof.
  intros Hst Hpos Hcoords Hzero.
  assert (truthy la && truthy ln = false) as Hfalsy.
  { destruct Hzero as [->%isZero_falsy| ->%isZero_falsy]; [done|apply andb_false_r]. }
  rewrite processRecord_branches, Hst, Hpos, legacyRecord_branches by done.
  cbv zeta. unfold legacyCoordinates in Hcoords.
  destruct (truthy (placeVisitOf (JObject fields))) eqn:Hpv.
  - simplify_eq. unfold legacyVisit. rewrite prop_truthy by done. simpl.
    rewrite prop_truthy by done. simpl. by rewrite Hfalsy.
  - destruct (truthy (activitySegmentOf (JObject fields))) eqn:Hseg; [|done].
    simplify_eq. unfold legacyActivity. rewrite !prop_truthy by done. simpl.
    case_match; [|done]. by rewrite Hfalsy.
Qed.
End Branches.

Section Moves.
Context {rt : JSRuntime}.
Implicit Types (index : nat) (fields : list (string * JSON)) (evs : list ProcessedEvent).


Lemma replaceUnderscores_clean (s : string) : hasUnderscore (replaceUnderscores s) = false.
Proof.
  induction s as [|c s IH]; simpl; [done|].
  rewrite IH, orb_false_r. destruct (Ascii.eqb_spec c "_") as [->|Hne]; [done|].
  by apply Ascii.eqb_neq.
Qed.

(** The semantic branch does normalize the label of its Moves. *)
Lemma semanticActivity_label_clean index obj activity start end' evs e :
  semanticActivity index obj activity start end' = Ok evs → e ∈ evs →
  ∃ label, activityType e = Some label ∧ hasUnderscore label = false.
Proof.
  unfold semanticActivity. intros H He. exec_cases H; only_event He.
  all: eexists; split; [done|]; apply replaceUnderscores_clean.
Qed.

(** The branches of the newer formats do check the timestamp. *)
Lemma semanticVisit_valid index obj visit start end' evs e :
  semanticVisit index obj visit start end' = Ok evs → e ∈ evs →
  startTime e = start ∧ invalidDate start = false.
Proof. unfold semanticVisit. intros H He. exec_cases H; by only_event He. Qed.

Lemma semanticActivity_valid index obj activity start end' evs e :
  semanticActivity index obj activity start end' = Ok evs → e ∈ evs →
  startTime e = start ∧ invalidDate start = false.
Proof. unfold semanticActivity. intros H He. exec_cases H; by only_event He. Qed.

Lemma pathPoint_valid index st pIdx pathPt evs e :
  pathPoint index st pIdx pathPt = Ok evs → e ∈ evs → invalidDate (startTime e) = false.
Proof. unfold pathPoint. intros H He. exec_cases H; by only_event He. Qed.

Lemma timelinePath_valid index st pIdx path evs e :
  timelinePath index st pIdx path = Ok evs → e ∈ evs → invalidDate (startTime e) = false.
Proof.
  revert pIdx evs. induction path as [|pt path IH]; intros pIdx evs H He; simpl in H.
  { simplify_eq. by apply elem_of_nil in He. }
  destruct (pathPoint index st pIdx pt) as [pushed| |] eqn:E1; simpl in H; try done.
  destruct (timelinePath index st (S pIdx) path) as [more| |] eqn:E2; simpl in H; try done.
  simplify_eq. apply elem_of_app in He as [He|He].
  - by eapply pathPoint_valid.
  - by eapply IH.
Qed.

Lemma rawSignal_valid index obj position evs e :
  rawSignal index obj position = Ok evs → e ∈ evs → invalidDate (startTime e) = false.
Proof. unfold rawSignal. intros H He. exec_cases H; by only_event He. Qed.

(** Every event of a semantic segment or a raw signal has a valid
    [startTime]. *)
Lemma newer_formats_drop_invalid_timestamps index obj evs e :
  truthy (startTimeOf obj) = true ∨ truthy (propOpt obj "position") = true →
  processRecord index obj = Ok evs → e ∈ evs →
  invalidDate (startTime e) = false.
Proof.
  intros Hnew Hrun He.
  assert (∃ fields, obj = JObject fields) as [fields ->].
  { destruct obj as [| | | | | |fields]; try by destruct Hnew. by exists fields. }
  rewrite processRecord_branches in Hrun by done.
  destruct (truthy (startTimeOf (JObject fields))) eqn:Hst.
  - rewrite semanticSegment_branches in Hrun. cbv zeta in Hrun.
    repeat case_match; simplify_eq; try by apply elem_of_nil in He.
    + by destruct (semanticVisit_valid _ _ _ _ _ _ _ Hrun He) as [-> ?].
    + by destruct (semanticActivity_valid _ _ _ _ _ _ _ Hrun He) as [-> ?].
    + by apply (timelinePath_valid _ _ _ _ _ _ Hrun).
  - destruct Hnew as [|Hpos]; [done|]. rewrite Hpos in Hrun.
    by apply (rawSignal_valid _ _ _ _ _ Hrun).
Qed.
End Moves.

(** ** The result of [parseTimelineData] *)

Section Results.
Context {rt : JSRuntime}.
Implicit Types (items : list JSON) (evs : list ProcessedEvent).



(** A document whose records give one event in all. *)
Lemma parseTimelineData_single (jsonData : JSON) items (e : ProcessedEvent) :
  findDataArray jsonData = Some items →
  collectEvents 0 items = Ok [e] →
  parseTimelineData jsonData = Ok (Some ([e], calculateStats clock [e])).
Proof.
  intros Hfind Hrun. unfold parseTimelineData, parseBody. rewrite Hfind.
  destruct items as [|x items]; [done|]. by rewrite Hrun.
Qed.


End Results.

(** ** Failing and sample records *)

(** C2 fails on the legacy branch: it never tests the parsed timestamp, so a
    place visit whose timestamp is no date comes out as a Visit with an
    invalid [startTime]. *)
Theorem legacy_visit_keeps_invalid_timestamp {rt : JSRuntime} :
  newDate (str "not a date") = InvalidDate →
  ∃ e stats,
    parseTimelineData badTimeDocument = Ok (Some ([e], stats))
    ∧ type e = VISIT
    ∧ startTime e = InvalidDate.
Proof.
  intros Hbad. eexists _, _. split_and!.
  - apply parseTimelineData_single with (items := [visitWithBadTime]); [reflexivity|].
    vm_compute. reflexivity.
  - reflexivity.
  - exact Hbad.
Qed.

Lemma legacy_visit_keeps_invalid_timestamp_witness :
  ∃ e stats,
    parseTimelineData (rt := SampleEngine.engine) badTimeDocument = Ok (Some ([e], stats))
    ∧ type e = VISIT
    ∧ startTime e = InvalidDate.
Proof. apply (legacy_visit_keeps_invalid_timestamp (rt := SampleEngine.engine)). reflexivity. Defined.

(** C6 fails on the legacy branch: it stores the label as it is, so the Move
    of a legacy activity segment keeps its underscores. *)
Theorem legacy_activity_keeps_underscores {rt : JSRuntime} :
  ∃ e stats,
    parseTimelineData legacyDriveDocument = Ok (Some ([e], stats))
    ∧ type e = MOVE
    ∧ activityType e = Some "IN_PASSENGER_VEHICLE"
    ∧ hasUnderscore "IN_PASSENGER_VEHICLE" = true
    ∧ activity <$> activityBreakdown stats = ["IN_PASSENGER_VEHICLE"].
Proof.
  eexists _, _. split_and!.
  - apply parseTimelineData_single with (items := [legacyDrive]); [reflexivity|].
    vm_compute. reflexivity.
  - reflexivity.
  - reflexivity.
  - reflexivity.
  - lazy. reflexivity.
Qed.

Lemma visit_and_activity_never_Move_witness :
  Forall (λ e, type e ≠ MOVE
               ∧ (type e = VISIT
                  ∨ (type e = POINT
                     ∧ truthy (startTimeOf ambiguousSegment) = false
                     ∧ truthy (propOpt ambiguousSegment "position") = true)))
         ambiguousSegmentEvents
  ∧ length ambiguousSegmentEvents = 1%nat.
Proof.
  split; [|reflexivity]. apply Forall_forall. intros e He.
  eapply (visit_and_activity_never_Move (rt := SampleEngine.engine) 0 ambiguousSegment);
    [reflexivity|reflexivity|vm_compute; reflexivity|exact He].
Defined.

(** C7 as stated fails: a record with both keys, no start time and a
    [position] gives a Point, not a Visit. *)
Lemma ambiguous_signal_gives_Point :
  propOpt ambiguousSignal "visit" = sampleVisitObject
  ∧ propOpt ambiguousSignal "activity" = sampleActivity
  ∧ ∃ e, processRecord (rt := SampleEngine.engine) 0 ambiguousSignal = Ok [e]
         ∧ type e = POINT ∧ type e ≠ VISIT.
Proof.
  split_and!; [reflexivity..|]. eexists. split_and!; [vm_compute; reflexivity|reflexivity|done].
Qed.

Lemma legacy_zero_coordinate_dropped_witness :
  processRecord (rt := SampleEngine.engine) 0 greenwichVisit = Ok [].
Proof.
  eapply (legacy_zero_coordinate_dropped (rt := SampleEngine.engine) 0);
    [reflexivity|reflexivity|reflexivity|].
  right. exists 0%Q. split; reflexivity.
Defined.



(** * Further properties *)

(** ** The statistics, field by field *)

(** X1. [placeVisitCounts] maps a title to the number of Visit events that
    carry it, and has no entry for a title that no Visit carries. *)
Theorem placeVisitCounts_lookup (now : Date) (events : list ProcessedEvent) (t : string) :
  placeVisitCounts (calculateStats now events) !! t =
    match occurrences titleKey t events with
    | O => None
    | n => Some n
    end.
Proof.
  destruct events as [|e l]; [done|].
  rewrite calculateStats_cons. cbv zeta. cbn [placeVisitCounts].
  rewrite lookup_list_to_map, get_tally. simpl.
  destruct (occurrences titleKey t (e :: l)); [done|]. f_equal. lia.
Qed.

Lemma length_firsts {E : Type} (key : E → option string) (seen : list string) (l : list E) :
  (length (firsts key seen l) ≤ length (omap key l))%nat.
Proof.
  revert seen. induction l as [|e l IH]; intros seen; csimpl; [done|].
  destruct (key e) as [k|]; [|apply IH].
  case_decide; csimpl.
  - etrans; [apply IH|]. lia.
  - specialize (IH (seen ++ [k])). lia.
Qed.

(** X2. [uniquePlaces] is the number of distinct titles among the Visit
    events; it never exceeds [totalVisits], which never exceeds the number of
    events, and the two are zero together. *)
Theorem uniquePlaces_spec (now : Date) (events : list ProcessedEvent) :
  uniquePlaces (calculateStats now events)
    = size (list_to_set (omap titleKey events) : gset string)
  ∧ (uniquePlaces (calculateStats now events) ≤ totalVisits (calculateStats now events))%nat
  ∧ (totalVisits (calculateStats now events) ≤ length events)%nat
  ∧ (uniquePlaces (calculateStats now events) = 0%nat
     ↔ totalVisits (calculateStats now events) = 0%nat).
Proof.
  destruct events as [|e l]; [done|].
  rewrite calculateStats_cons. cbv zeta. cbn [uniquePlaces totalVisits].
  set (events := e :: l).
  assert (NoDup (fold_left (tallyStep titleKey) events []).*1) as Hnd.
  { apply NoDup_tally. constructor. }
  rewrite (titles_keys events ∅ []) by done.
  rewrite <- length_omap_titleKey.
  assert (size (list_to_set (C := gset string) (fold_left (tallyStep titleKey) events []).*1)
          = length (firsts titleKey [] events)) as Hsize.
  { rewrite size_list_to_set by done. by rewrite keys_tally. }
  split_and!.
  - by rewrite tally_keys_set.
  - rewrite Hsize. apply length_firsts.
  - rewrite length_omap_titleKey. apply length_filter.
  - rewrite Hsize. split.
    + intros Hz. destruct (omap titleKey events) as [|t ts] eqn:E; [done|].
      assert (t ∈ omap titleKey events) as Hin by (rewrite E; left).
      apply occurrences_omap in Hin.
      assert (t ∈ (fold_left (tallyStep titleKey) events []).*1) as Hkey.
      { apply dec_stable. intros Hno%get_None. rewrite get_tally in Hno.
        by destruct (occurrences titleKey t events). }
      rewrite keys_tally in Hkey. change (t ∈ firsts titleKey [] events) in Hkey.
      destruct (firsts titleKey [] events); [by apply elem_of_nil in Hkey|done].
    + intros Hz. pose proof (length_firsts titleKey [] events). lia.
Qed.

(** X3. [topCities] is a top: a city that some Visit carries is either listed
    with its count, or the list is full and each listed city has at least as
    many visits. *)
Theorem topCities_complete (now : Date) (events : list ProcessedEvent) (c : string) :
  c ≠ EmptyString →
  occurrences visitCity c events ≠ 0%nat →
  mkCityCount c (occurrences visitCity c events) ∈ topCities (calculateStats now events)
  ∨ (length (topCities (calculateStats now events)) = 5%nat
     ∧ ∀ a, a ∈ topCities (calculateStats now events) →
            (occurrences visitCity c events ≤ count a)%nat).
Proof.
  intros Hc Hn. destruct events as [|e l]; [done|].
  rewrite calculateStats_cons. cbv zeta. cbn [topCities].
  set (events := e :: l) in *. set (entries := fold_left (tallyStep cityKey) events []).
  set (n := occurrences visitCity c events) in *.
  assert ((c, n) ∈ sort byCountDesc entries) as Hin.
  { rewrite sort_Permutation. apply get_elem_of; [apply NoDup_tally; constructor|].
    unfold entries. rewrite get_tally, occurrences_cityKey by done. fold n. simpl.
    destruct n; [done|]. f_equal. lia. }
  pose proof (sort_sorted byCountDesc ltac:(unfold byCountDesc; lia)
                ltac:(unfold byCountDesc; lia) entries) as Hsorted.
  rewrite <- (take_drop 5 (sort byCountDesc entries)) in Hin, Hsorted.
  apply elem_of_app in Hin as [Hin|Hin].
  - left. apply list_elem_of_fmap. by exists (c, n).
  - right. split.
    + rewrite length_fmap, length_take.
      assert (length (drop 5 (sort byCountDesc entries)) ≠ 0%nat) as Hlen.
      { by destruct (drop 5 (sort byCountDesc entries)); [apply elem_of_nil in Hin|]. }
      rewrite length_drop in Hlen. lia.
    + intros a ([k m] & -> & Hk)%list_elem_of_fmap. simpl.
      apply StronglySorted_app in Hsorted as (Hle & _ & _).
      specialize (Hle _ _ Hk Hin). by apply byCountDesc_le in Hle.
Qed.

Lemma topCities_complete_witness :
  mkCityCount "Faro" 1 ∈ topCities (calculateStats (DateMs 0) sixCities)
  ∨ (length (topCities (calculateStats (DateMs 0) sixCities)) = 5%nat
     ∧ ∀ a, a ∈ topCities (calculateStats (DateMs 0) sixCities) → (1 ≤ count a)%nat).
Proof. apply (topCities_complete (DateMs 0) sixCities "Faro"); vm_compute; congruence. Defined.

Lemma tally_values_positive {E : Type} (key : E → option string) (l : list E) (k : string) (n : nat) :
  (k, n) ∈ fold_left (tallyStep key) l [] ↔ n ≠ 0%nat ∧ n = occurrences key k l.
Proof.
  rewrite <- get_elem_of by (apply NoDup_tally; constructor).
  rewrite get_tally. simpl. destruct (occurrences key k l) as [|m]; [naive_solver|].
  rewrite Nat.add_0_r. naive_solver.
Qed.

(** X4. [activityBreakdown] is never empty for a non-empty list. When no Move
    carries a label it is the one entry [Recorded Points] with the number of
    events; otherwise it has one entry for each label, with the number of
    Moves that carry it, and its values add up to the number of labelled
    Moves. *)
Theorem activityBreakdown_spec (now : Date) (events : list ProcessedEvent) :
  events ≠ [] →
  activityBreakdown (calculateStats now events) ≠ []
  ∧ (omap activityKey events = [] →
     activityBreakdown (calculateStats now events)
       = [mkActivityCount "Recorded Points" (length events)])
  ∧ (omap activityKey events ≠ [] →
     NoDup (activity <$> activityBreakdown (calculateStats now events))
     ∧ (∀ a v, mkActivityCount a v ∈ activityBreakdown (calculateStats now events)
               ↔ v ≠ 0%nat ∧ v = occurrences activityKey a events)
     ∧ sum_list (value <$> activityBreakdown (calculateStats now events))
       = length (omap activityKey events)).
Proof.
  intros Hne. destruct events as [|e l]; [done|]. clear Hne.
  rewrite calculateStats_cons. cbv zeta. cbn [activityBreakdown].
  set (events := e :: l). set (entries := fold_left (tallyStep activityKey) events []).
  assert (entries = [] ↔ omap activityKey events = []) as Hempty.
  { split.
    - intros Hnil. destruct (omap activityKey events) as [|a ?] eqn:E; [done|].
      assert (a ∈ omap activityKey events) as Hin%occurrences_omap by (rewrite E; left).
      assert ((a, occurrences activityKey a events) ∈ entries) as Hent
        by by apply tally_values_positive.
      rewrite Hnil in Hent. by apply elem_of_nil in Hent.
    - intros Hnil. destruct entries as [|[a v] ?] eqn:E; [done|].
      assert ((a, v) ∈ entries) as [Hv ->]%tally_values_positive by (rewrite E; left).
      apply occurrences_omap in Hv. rewrite Hnil in Hv. by apply elem_of_nil in Hv. }
  split_and!.
  - by destruct entries.
  - intros Hnil. apply Hempty in Hnil. by rewrite Hnil.
  - intros Hsome. assert (entries ≠ []) as Hent by (by rewrite Hempty).
    replace (match toActivityCount <$> entries with
             | [] => [mkActivityCount "Recorded Points" (length events)]
             | _ => toActivityCount <$> entries
             end) with (toActivityCount <$> entries) by by destruct entries.
    split_and!.
    + rewrite <- list_fmap_compose.
      change (activity ∘ toActivityCount) with (@fst string nat).
      apply NoDup_tally. constructor.
    + intros a v. rewrite <- (tally_values_positive activityKey events a v).
      rewrite list_elem_of_fmap. split.
      * by intros ([??] & [= -> ->] & ?).
      * intros ?. by exists (a, v).
    + rewrite <- list_fmap_compose.
      change (value ∘ toActivityCount) with (@snd string nat).
      unfold entries. by rewrite sum_tally.
Qed.

Lemma activityBreakdown_spec_witness :
  activityBreakdown (calculateStats (DateMs 0) sampleDay) ≠ []
  ∧ (omap activityKey sampleDay = [] →
     activityBreakdown (calculateStats (DateMs 0) sampleDay)
       = [mkActivityCount "Recorded Points" (length sampleDay)])
  ∧ (omap activityKey sampleDay ≠ [] →
     NoDup (activity <$> activityBreakdown (calculateStats (DateMs 0) sampleDay))
     ∧ (∀ a v, mkActivityCount a v ∈ activityBreakdown (calculateStats (DateMs 0) sampleDay)
               ↔ v ≠ 0%nat ∧ v = occurrences activityKey a sampleDay)
     ∧ sum_list (value <$> activityBreakdown (calculateStats (DateMs 0) sampleDay))
       = length (omap activityKey sampleDay)).
Proof. apply (activityBreakdown_spec (DateMs 0) sampleDay). done. Defined.



(** X6. The date range encloses the events: it starts no later than any valid
    [startTime] of the list and ends no earlier than any valid [endTime]. *)
Theorem dateRange_encloses (now : Date) (events : list ProcessedEvent) (e : ProcessedEvent) :
  e ∈ events →
  (∀ s, startTime e = DateMs s →
     ∃ lo, start (dateRange (calculateStats now events)) = DateMs lo ∧ lo <= s)
  ∧ (∀ t, endTime e = DateMs t →
     ∃ hi, end_ (dateRange (calculateStats now events)) = DateMs hi ∧ t <= hi).
Proof.
  intros He. destruct events as [|e0 l]; [by apply elem_of_nil in He|].
  rewrite calculateStats_cons. cbv zeta. cbn [dateRange start end_].
  set (events := e0 :: l) in *. rewrite fold_minStep, fold_maxStep.
  split.
  - intros s Hs. eexists. split; [done|].
    apply fold_min_spec, list_elem_of_omap. exists e. by rewrite Hs.
  - intros t Ht. eexists. split; [done|].
    apply fold_max_spec, list_elem_of_omap. exists e. by rewrite Ht.
Qed.

Lemma dateRange_encloses_witness :
  (∀ s, startTime endsBeforeStart = DateMs s →
     ∃ lo, start (dateRange (calculateStats (DateMs 0) (endsBeforeStart :: sampleDay)))
           = DateMs lo ∧ lo <= s)
  ∧ (∀ t, endTime endsBeforeStart = DateMs t →
     ∃ hi, end_ (dateRange (calculateStats (DateMs 0) (endsBeforeStart :: sampleDay)))
           = DateMs hi ∧ t <= hi).
Proof. apply (dateRange_encloses (DateMs 0) (endsBeforeStart :: sampleDay)). left. Defined.

(** ** The events of a record *)

Lemma multiplesBelow_S (k i : nat) :
  (0 < k)%nat →
  multiplesBelow k (S i) = (multiplesBelow k i + if (i mod k =? 0)%nat then 1 else 0)%nat.
Proof.
  intros Hk. unfold multiplesBelow.
  pose proof (Nat.div_mod_eq i k) as Hi. pose proof (Nat.mod_upper_bound i k ltac:(lia)) as Hr.
  set (q := (i / k)%nat) in *. set (r := (i mod k)%nat) in *.
  replace (S i + k - 1)%nat with (r + (q + 1) * k)%nat by lia.
  rewrite Nat.div_add by lia. rewrite (Nat.div_small r k) by lia.
  destruct (Nat.eqb_spec r 0) as [Hz|Hz].
  - replace (i + k - 1)%nat with ((k - 1) + q * k)%nat by lia.
    rewrite Nat.div_add by lia. rewrite Nat.div_small by lia. lia.
  - replace (i + k - 1)%nat with ((r - 1) + (q + 1) * k)%nat by lia.
    rewrite Nat.div_add by lia. rewrite Nat.div_small by lia. lia.
Qed.

Lemma multiplesBelow_0 (k : nat) : (0 < k)%nat → multiplesBelow k 0 = 0%nat.
Proof. intros Hk. unfold multiplesBelow. apply Nat.div_small. lia. Qed.

Lemma prop_truthy' (obj : JSON) (k : string) :
  obj ≠ JNull → obj ≠ JUndefined → prop obj k = Ok (propOpt obj k).
Proof. by destruct obj. Qed.

Section Emitters.
Context {rt : JSRuntime}.
Implicit Types (index : nat) (obj : JSON) (evs : list ProcessedEvent).

(** What holds of the events of each of the six emitters holds of the events
    of every record. *)
Lemma processRecord_emitters (P : nat → ProcessedEvent → Prop) :
  (∀ index obj v s t evs e, semanticVisit index obj v s t = Ok evs → e ∈ evs → P index e) →
  (∀ index obj a s t evs e, semanticActivity index obj a s t = Ok evs → e ∈ evs → P index e) →
  (∀ index st pIdx pt evs e, pathPoint index st pIdx pt = Ok evs → e ∈ evs → P index e) →
  (∀ index obj p evs e, rawSignal index obj p = Ok evs → e ∈ evs → P index e) →
  (∀ index obj v evs e, legacyVisit index obj v = Ok evs → e ∈ evs → P index e) →
  (∀ index obj a evs e, legacyActivity index obj a = Ok evs → e ∈ evs → P index e) →
  ∀ index obj evs e, processRecord index obj = Ok evs → e ∈ evs → P index e.
Proof.
  intros Hsv Hsa Hpp Hrs Hlv Hla index obj evs e Hrun He.
  assert (obj ≠ JNull ∧ obj ≠ JUndefined) as [Hn Hu].
  { split; intros ->; done. }
  rewrite processRecord_branches in Hrun by done.
  assert (∀ st pIdx path evs, timelinePath index st pIdx path = Ok evs → e ∈ evs → P index e)
    as Hpath.
  { intros st pIdx path. revert pIdx.
    induction path as [|pt path IH]; intros pIdx evs' H He'; simpl in H.
    { simplify_eq. by apply elem_of_nil in He'. }
    destruct (pathPoint index st pIdx pt) as [pushed| |] eqn:E1; simpl in H; try done.
    destruct (timelinePath index st (S pIdx) path) as [more| |] eqn:E2; simpl in H; try done.
    simplify_eq. apply elem_of_app in He' as [He'|He']; [by eapply Hpp|by eapply IH]. }
  destruct (truthy (startTimeOf obj)).
  - unfold semanticSegment in Hrun. rewrite !(prop_truthy' obj) in Hrun by done.
    repeat (cbn [mbind exec_bind] in Hrun; try case_match); simplify_eq; eauto;
      by apply elem_of_nil in He.
  - destruct (truthy (propOpt obj "position")); [by eapply Hrs|].
    unfold legacyRecord, orElse in Hrun. rewrite !(prop_truthy' obj) in Hrun by done.
    repeat (cbn [mbind exec_bind] in Hrun; try case_match); simplify_eq; eauto;
      by apply elem_of_nil in He.
Qed.
(** X7. The optional fields of an event fit its kind: a Visit has no distance
    and no activity type, a Move has no city and no place id and its activity
    type is its title, a Point has none of them and ends when it starts; no
    event from the parser has place types or a semantic type. *)
Theorem events_fit_their_kind index obj evs e :
  processRecord index obj = Ok evs → e ∈ evs → fieldsFitKind e.
Proof.
  apply (processRecord_emitters (λ _ e, fieldsFitKind e)); clear.
  - intros index obj v s t evs e H He. unfold semanticVisit in H.
    exec_cases H; only_event He; by unfold fieldsFitKind.
  - intros index obj v s t evs e H He. unfold semanticActivity in H.
    exec_cases H; only_event He; by unfold fieldsFitKind.
  - intros index st pIdx pt evs e H He. unfold pathPoint in H.
    exec_cases H; only_event He; by unfold fieldsFitKind.
  - intros index obj p evs e H He. unfold rawSignal in H.
    exec_cases H; only_event He; by unfold fieldsFitKind.
  - intros index obj v evs e H He. unfold legacyVisit in H.
    exec_cases H; only_event He; by unfold fieldsFitKind.
  - intros index obj v evs e H He. unfold legacyActivity in H.
    exec_cases H; only_event He; by unfold fieldsFitKind.
Qed.

(** X8. The id of an event names the branch that made it and the index of its
    record: [v-] and [legacy-v-] for a Visit, [a-] and [legacy-a-] for a Move,
    [rs-] and [tp-] (with the index of the point in its path) for a Point. *)
Theorem event_id_names_its_record index obj evs e :
  processRecord index obj = Ok evs → e ∈ evs →
  match type e with
  | VISIT => id e = "v-" +:+ indexToString index ∨ id e = "legacy-v-" +:+ indexToString index
  | MOVE => id e = "a-" +:+ indexToString index ∨ id e = "legacy-a-" +:+ indexToString index
  | POINT =>
      id e = "rs-" +:+ indexToString index
      ∨ ∃ pIdx, id e = "tp-" +:+ indexToString index +:+ "-" +:+ indexToString pIdx
  end.
Proof.
  revert index obj evs e.
  apply (processRecord_emitters
           (λ index e,
              match type e with
              | VISIT => id e = "v-" +:+ indexToString index
                         ∨ id e = "legacy-v-" +:+ indexToString index
              | MOVE => id e = "a-" +:+ indexToString index
                        ∨ id e = "legacy-a-" +:+ indexToString index
              | POINT => id e = "rs-" +:+ indexToString index
                         ∨ ∃ pIdx, id e = "tp-" +:+ indexToString index +:+ "-"
                                          +:+ indexToString pIdx
              end)).
  - intros index obj v s t evs e H He. unfold semanticVisit in H.
    exec_cases H; only_event He; try discriminate; first [by left|by right].
  - intros index obj v s t evs e H He. unfold semanticActivity in H.
    exec_cases H; only_event He; try discriminate; first [by left|by right].
  - intros index st pIdx pt evs e H He. unfold pathPoint in H.
    exec_cases H; only_event He; try discriminate; right; by exists pIdx.
  - intros index obj p evs e H He. unfold rawSignal in H.
    exec_cases H; only_event He; try discriminate; first [by left|by right].
  - intros index obj v evs e H He. unfold legacyVisit in H.
    exec_cases H; only_event He; try discriminate; first [by left|by right].
  - intros index obj v evs e H He. unfold legacyActivity in H.
    exec_cases H; only_event He; try discriminate; first [by left|by right].
Qed.

(** X9. The Moves of a semantic segment carry a normalized label: the
    activity type has no underscore and is also the title. *)
Theorem semantic_moves_have_clean_labels index obj evs e :
  truthy (startTimeOf obj) = true →
  processRecord index obj = Ok evs → e ∈ evs → type e = MOVE →
  ∃ label, activityType e = Some label ∧ title e = label ∧ hasUnderscore label = false.
Proof.
  intros Hst Hrun He Hmove.
  assert (∃ fields, obj = JObject fields) as [fields ->].
  { destruct obj as [| | | | | |fields]; try done. by exists fields. }
  rewrite processRecord_branches, Hst, semanticSegment_branches in Hrun by done.
  cbv zeta in Hrun. repeat case_match; simplify_eq; try by apply elem_of_nil in He.
  - by rewrite (semanticVisit_type _ _ _ _ _ _ _ Hrun He) in Hmove.
  - unfold semanticActivity in Hrun. exec_cases Hrun; only_event He.
    all: eexists; split_and!; [done..|apply replaceUnderscores_clean].
  - by rewrite (timelinePath_type _ _ _ _ _ _ Hrun He) in Hmove.
Qed.

Lemma timelinePath_count index st pIdx path evs :
  timelinePath index st pIdx path = Ok evs →
  (length evs + multiplesBelow 5 pIdx ≤ multiplesBelow 5 (pIdx + length path))%nat
  ∧ ∀ e, e ∈ evs → ∃ j, path !! j = Some (raw e) ∧ ((pIdx + j) mod 5 = 0)%nat.
Proof.
  revert pIdx evs. induction path as [|pt path IH]; intros pIdx evs H; simpl in H.
  { simplify_eq. simpl. rewrite Nat.add_0_r. split; [done|]. by intros e ?%elem_of_nil. }
  destruct (pathPoint index st pIdx pt) as [pushed| |] eqn:E1; simpl in H; try done.
  destruct (timelinePath index st (S pIdx) path) as [more| |] eqn:E2; simpl in H; try done.
  simplify_eq. destruct (IH _ _ E2) as [Hlen Hat].
  assert ((length pushed ≤ if (pIdx mod 5 =? 0)%nat then 1 else 0)%nat
          ∧ ∀ e, e ∈ pushed → raw e = pt ∧ (pIdx mod 5 = 0)%nat) as [Hone Hraw].
  { unfold pathPoint in E1. exec_cases E1; simpl.
    all: try (split; [lia|by intros e ?%elem_of_nil]).
    all: try (split; [done|by intros e ?%elem_of_nil]).
    all: split; [done|]; intros e He; only_event He; split; [done|]; by apply Nat.eqb_eq. }
  split.
  - rewrite length_app. cbn [length]. replace (pIdx + S (length path))%nat
      with (S pIdx + length path)%nat by lia.
    pose proof (multiplesBelow_S 5 pIdx ltac:(lia)) as HS.
    destruct (pIdx mod 5 =? 0)%nat; lia.
  - intros e [He|He]%elem_of_app.
    + destruct (Hraw e He) as [-> Hmod]. exists 0%nat. by rewrite Nat.add_0_r.
    + destruct (Hat e He) as (j & Hj & Hmod). exists (S j). split; [done|].
      by replace (pIdx + S j)%nat with (S pIdx + j)%nat by lia.
Qed.

(** X10. A record gives at most one event, except a semantic segment with a
    [timelinePath], which is decimated: it gives at most one Point for every
    five points of the path, each made from a point whose position in the path
    is a multiple of five. *)
Theorem record_event_count index obj evs :
  processRecord index obj = Ok evs →
  (length evs ≤ 1)%nat
  ∨ ∃ pts, propOpt obj "timelinePath" = JArray pts
           ∧ (length evs ≤ multiplesBelow 5 (length pts))%nat
           ∧ ∀ e, e ∈ evs →
               type e = POINT ∧ ∃ j, pts !! j = Some (raw e) ∧ (j mod 5 = 0)%nat.
Proof.
  intros Hrun.
  assert (∃ fields, obj = JObject fields ∨ evs = []) as [fields [-> | ->]].
  { destruct obj as [| | | | | |fields];
      [exists []; right; vm_compute in Hrun; by simplify_eq..|].
    exists fields. by left. }
  2: { left. simpl. lia. }
  rewrite processRecord_branches in Hrun by done.
  destruct (truthy (startTimeOf (JObject fields))).
  - rewrite semanticSegment_branches in Hrun. cbv zeta in Hrun.
    repeat case_match; simplify_eq; try (left; simpl; lia).
    + left. unfold semanticVisit in Hrun. exec_cases Hrun; simpl; lia.
    + left. unfold semanticActivity in Hrun. exec_cases Hrun; simpl; lia.
    + right. eexists. split; [done|].
      destruct (timelinePath_count _ _ _ _ _ Hrun) as [Hlen Hat].
      rewrite multiplesBelow_0, Nat.add_0_l in Hlen by lia. split; [lia|].
      intros e He. split; [by eapply timelinePath_type|]. by apply Hat.
  - left. destruct (truthy (propOpt (JObject fields) "position")).
    + unfold rawSignal in Hrun. exec_cases Hrun; simpl; lia.
    + rewrite legacyRecord_branches in Hrun. cbv zeta in Hrun.
      repeat case_match; simplify_eq; try (simpl; lia).
      * unfold legacyVisit in Hrun. exec_cases Hrun; simpl; lia.
      * unfold legacyActivity in Hrun. exec_cases Hrun; simpl; lia.
Qed.
End Emitters.

Lemma events_fit_their_kind_witness :
  Forall fieldsFitKind pathSegmentEvents ∧ length pathSegmentEvents = 5%nat.
Proof.
  split; [|reflexivity]. apply Forall_forall. intros e He.
  apply (events_fit_their_kind (rt := SampleEngine.engine) 3 pathSegment pathSegmentEvents);
    [vm_compute; reflexivity|exact He].
Defined.

Lemma event_id_names_its_record_witness :
  Forall (λ e, id e = "a-7" ∨ id e = "legacy-a-7") driveSegmentEvents
  ∧ length driveSegmentEvents = 1%nat.
Proof.
  split; [|reflexivity]. apply Forall_forall. intros e He.
  pose proof (event_id_names_its_record (rt := SampleEngine.engine) 7 driveSegment
                driveSegmentEvents e ltac:(vm_compute; reflexivity) He) as Hid.
  apply list_elem_of_singleton in He as ->. exact Hid.
Defined.

Lemma semantic_moves_have_clean_labels_witness :
  Forall (λ e, ∃ label, activityType e = Some label ∧ title e = label
                        ∧ hasUnderscore label = false) driveSegmentEvents
  ∧ (title <$> driveSegmentEvents) = ["IN PASSENGER VEHICLE"].
Proof.
  split; [|reflexivity]. apply Forall_forall. intros e He.
  apply (semantic_moves_have_clean_labels (rt := SampleEngine.engine) 7 driveSegment
           driveSegmentEvents e); [reflexivity|vm_compute; reflexivity|exact He|].
  by apply list_elem_of_singleton in He as ->.
Defined.

Lemma record_event_count_witness :
  (length pathSegmentEvents ≤ 1)%nat
  ∨ ∃ pts, propOpt pathSegment "timelinePath" = JArray pts
           ∧ (length pathSegmentEvents ≤ multiplesBelow 5 (length pts))%nat
           ∧ ∀ e, e ∈ pathSegmentEvents →
               type e = POINT ∧ ∃ j, pts !! j = Some (raw e) ∧ (j mod 5 = 0)%nat.
Proof.
  apply (record_event_count (rt := SampleEngine.engine) 3 pathSegment pathSegmentEvents).
  vm_compute. reflexivity.
Defined.

(** ** The order of the result *)

Section Order.
Context {rt : JSRuntime}.
Implicit Types (items : list JSON) (evs pushed : list ProcessedEvent).

Lemma collectEvents_elem (i : nat) items pushed e :
  collectEvents i items = Ok pushed → e ∈ pushed →
  ∃ k obj evs, items !! k = Some obj ∧ processRecord (i + k) obj = Ok evs ∧ e ∈ evs.
Proof.
  revert i pushed. induction items as [|x items IH]; intros i pushed H He; simpl in H.
  { simplify_eq. by apply elem_of_nil in He. }
  destruct (processRecord i x) as [evs| |] eqn:E1; simpl in H; try done.
  destruct (collectEvents (S i) items) as [more| |] eqn:E2; simpl in H; try done.
  simplify_eq. apply elem_of_app in He as [He|He].
  - exists 0%nat, x, evs. by rewrite Nat.add_0_r.
  - destruct (IH _ _ E2 He) as (k & obj & evs' & Hk & Hrun & Hin).
    exists (S k), obj, evs'. split_and!; [done| |done].
    by replace (i + S k)%nat with (S i + k)%nat by lia.
Qed.

Lemma sort_insert_chronological (x : ProcessedEvent) (l : list ProcessedEvent) :
  invalidDate (startTime x) = false →
  Forall (λ e, invalidDate (startTime e) = false) l →
  StronglySorted startsNoLater l →
  StronglySorted startsNoLater (sort_insert byStartTime x l).
Proof.
  intros Hx Hl Hs. induction Hs as [|y l Hs IH Hy]; simpl.
  { repeat constructor. }
  apply Forall_cons in Hl as [Hyv Hl].
  assert (∀ a b, invalidDate (startTime a) = false → invalidDate (startTime b) = false →
                 (byStartTime a b <= 0 ↔ startsNoLater a b)) as Hcmp.
  { intros a b. unfold byStartTime, startsNoLater.
    destruct (startTime a), (startTime b); try done. intros _ _. lia. }
  assert (∀ a b, invalidDate (startTime a) = false → invalidDate (startTime b) = false →
                 0 < byStartTime a b → startsNoLater b a) as Hgt.
  { intros a b. unfold byStartTime, startsNoLater.
    destruct (startTime a), (startTime b); try done. intros _ _. lia. }
  destruct (Z.leb_spec (byStartTime x y) 0) as [Hle|Hlt].
  - apply Hcmp in Hle; [|done..]. constructor; [by constructor|]. constructor; [done|].
    eapply Forall_impl; [exact Hy|]. intros z Hz. revert Hle Hz. unfold startsNoLater.
    destruct (startTime x), (startTime y), (startTime z); try done. lia.
  - constructor; [by apply IH|].
    rewrite sort_insert_Permutation. constructor; [|done]. by apply Hgt.
Qed.

Lemma sort_chronological (l : list ProcessedEvent) :
  Forall (λ e, invalidDate (startTime e) = false) l →
  StronglySorted startsNoLater (sort byStartTime l)
  ∧ Forall (λ e, invalidDate (startTime e) = false) (sort byStartTime l).
Proof.
  intros Hl. split; [|by rewrite sort_Permutation].
  induction Hl as [|x l Hx Hl IH]; simpl; [constructor|].
  apply sort_insert_chronological; [done| |done]. by rewrite sort_Permutation.
Qed.

(** X11. When every event starts at a valid date, the result is in
    chronological order and the sort is stable: the events that start at the
    same instant keep the order of their records. *)
Theorem result_order (jsonData : JSON) evs (stats : DashboardStats) :
  parseTimelineData jsonData = Ok (Some (evs, stats)) →
  ∃ items pushed,
    findDataArray jsonData = Some items
    ∧ collectEvents 0 items = Ok pushed
    ∧ (Forall (λ e, invalidDate (startTime e) = false) pushed →
       StronglySorted startsNoLater evs
       ∧ ∀ t : Z,
           filter (λ e, instantOf (startTime e) = Some t) evs
           = filter (λ e, instantOf (startTime e) = Some t) pushed).
Proof.
  unfold parseTimelineData, parseBody.
  destruct (findDataArray jsonData) as [[|x items]|] eqn:Hfind; try done.
  destruct (collectEvents 0 (x :: items)) as [[|e pushed]| |] eqn:Hrun;
    cbn [mbind exec_bind]; cbv zeta; try done.
  intros [= <- _]. exists (x :: items), (e :: pushed). split_and!; [done..|].
  intros Hvalid. split.
  - by apply (sort_chronological (e :: pushed)).
  - intros t.
    apply (sort_stable byStartTime (λ e, instantOf (startTime e) = Some t) (e :: pushed)).
    intros a b Ha Hb. unfold byStartTime.
    destruct (startTime a), (startTime b); simpl in *; simplify_eq; lia.
Qed.

(** X12. A document of the newer export, all semantic segments and raw
    signals, comes out in chronological order, and every event in it starts
    at a valid date. *)
Theorem newer_documents_are_chronological (jsonData : JSON) items evs (stats : DashboardStats) :
  findDataArray jsonData = Some items →
  Forall newerFormat items →
  parseTimelineData jsonData = Ok (Some (evs, stats)) →
  StronglySorted startsNoLater evs
  ∧ Forall (λ e, invalidDate (startTime e) = false) evs.
Proof.
  intros Hfind Hnew. unfold parseTimelineData, parseBody. rewrite Hfind.
  destruct items as [|x items]; [done|].
  destruct (collectEvents 0 (x :: items)) as [[|e pushed]| |] eqn:Hrun;
    cbn [mbind exec_bind]; cbv zeta; try done.
  intros [= <- _]. apply (sort_chronological (e :: pushed)).
  apply Forall_forall. intros e' He'.
  destruct (collectEvents_elem _ _ _ _ Hrun He') as (k & obj & evs' & Hk & Hrec & Hin).
  eapply newer_formats_drop_invalid_timestamps; [|exact Hrec|exact Hin].
  eapply (proj1 (Forall_forall _ _) Hnew). by eapply list_elem_of_lookup_2.
Qed.
End Order.

Lemma result_order_witness :
  ∃ items pushed,
    findDataArray twoSegmentDocument = Some items
    ∧ collectEvents (rt := SampleEngine.engine) 0 items = Ok pushed
    ∧ (Forall (λ e, invalidDate (startTime e) = false) pushed →
       StronglySorted startsNoLater twoSegmentEvents
       ∧ ∀ t : Z,
           filter (λ e, instantOf (startTime e) = Some t) twoSegmentEvents
           = filter (λ e, instantOf (startTime e) = Some t) pushed).
Proof.
  apply (result_order (rt := SampleEngine.engine) twoSegmentDocument twoSegmentEvents
           (calculateStats (clock (JSRuntime := SampleEngine.engine)) twoSegmentEvents)).
  vm_compute. reflexivity.
Defined.

Lemma newer_documents_are_chronological_witness :
  (StronglySorted startsNoLater twoSegmentEvents
   ∧ Forall (λ e, invalidDate (startTime e) = false) twoSegmentEvents)
  ∧ (title <$> twoSegmentEvents) = ["Cafe X"; "IN PASSENGER VEHICLE"].
Proof.
  split; [|reflexivity].
  apply (newer_documents_are_chronological (rt := SampleEngine.engine) twoSegmentDocument
           [driveSegment; cafeSegment] twoSegmentEvents
           (calculateStats (clock (JSRuntime := SampleEngine.engine)) twoSegmentEvents)).
  - reflexivity.
  - repeat constructor.
  - vm_compute. reflexivity.
Defined.

(** ** Raw signals and legacy coordinates *)

Section Sampling.
Context {rt : JSRuntime}.
Implicit Types (index : nat) (obj : JSON) (items : list JSON) (evs : list ProcessedEvent).



Lemma legacyVisit_coordinates index obj placeVisit evs e :
  legacyVisit index obj placeVisit = Ok evs → e ∈ evs →
  truthy (JNumber (lat e)) = true ∧ truthy (JNumber (lng e)) = true.
Proof.
  unfold legacyVisit. intros H He.
  destruct (prop placeVisit "location") as [location| |]; cbn [mbind exec_bind] in H; try done.
  cbv zeta in H.
  destruct (prop placeVisit "duration") as [duration| |]; cbn [mbind exec_bind] in H; try done.
  destruct (truthy (visitLat _)) eqn:Hla; [|simpl in H; simplify_eq; by apply elem_of_nil in He].
  destruct (truthy (visitLng _)) eqn:Hln; [|simpl in H; simplify_eq; by apply elem_of_nil in He].
  exec_cases H; only_event He; by split.
Qed.

Lemma legacyActivity_coordinates index obj segment evs e :
  legacyActivity index obj segment = Ok evs → e ∈ evs →
  truthy (JNumber (lat e)) = true ∧ truthy (JNumber (lng e)) = true.
Proof.
  unfold legacyActivity. intros H He.
  destruct (prop segment "duration") as [duration| |]; cbn [mbind exec_bind] in H; try done.
  cbv zeta in H.
  destruct (prop segment "activityType") as [ty| |]; cbn [mbind exec_bind] in H; try done.
  destruct (truthy (or_ _ _)); [|simpl in H; simplify_eq; by apply elem_of_nil in He].
  destruct (truthy (segmentLat _)) eqn:Hla; [|simpl in H; simplify_eq; by apply elem_of_nil in He].
  destruct (truthy (segmentLng _)) eqn:Hln; [|simpl in H; simplify_eq; by apply elem_of_nil in He].
  exec_cases H; only_event He; by split.
Qed.

(** X14. No event of the traditional export lies on the equator or on the
    prime meridian or has a coordinate that is no number: the latitude and the
    longitude of every legacy Visit and Move are truthy. *)
Theorem legacy_events_have_truthy_coordinates index obj evs e :
  truthy (startTimeOf obj) = false →
  truthy (propOpt obj "position") = false →
  processRecord index obj = Ok evs → e ∈ evs →
  (type e = VISIT ∨ type e = MOVE)
  ∧ truthy (JNumber (lat e)) = true ∧ truthy (JNumber (lng e)) = true.
Proof.
  intros Hst Hpos Hrun He.
  assert (∃ fields, obj = JObject fields) as [fields ->].
  { destruct obj as [| | | | | |fields];
      try (vm_compute in Hrun; simplify_eq; by apply elem_of_nil in He).
    by exists fields. }
  rewrite processRecord_branches, Hst, Hpos, legacyRecord_branches in Hrun by done.
  cbv zeta in Hrun. repeat case_match; simplify_eq; try by apply elem_of_nil in He.
  - split; [left; by eapply legacyVisit_type|by eapply legacyVisit_coordinates].
  - split; [right; by eapply legacyActivity_type|by eapply legacyActivity_coordinates].
Qed.
End Sampling.


Lemma legacy_events_have_truthy_coordinates_witness :
  Forall (λ e, (type e = VISIT ∨ type e = MOVE)
               ∧ truthy (JNumber (lat e)) = true ∧ truthy (JNumber (lng e)) = true)
         (match processRecord (rt := SampleEngine.engine) 0 legacyDrive with
          | Ok evs => evs
          | _ => []
          end)
  ∧ (∃ e, processRecord (rt := SampleEngine.engine) 0 legacyDrive = Ok [e]).
Proof.
  split; [|eexists; vm_compute; reflexivity].
  apply Forall_forall. intros e He.
  apply (legacy_events_have_truthy_coordinates (rt := SampleEngine.engine) 0 legacyDrive
           (match processRecord (rt := SampleEngine.engine) 0 legacyDrive with
            | Ok evs => evs
            | _ => []
            end) e); [reflexivity|reflexivity|vm_compute; reflexivity|exact He].
Defined.

(** ** The search of the record array *)

Lemma JSON_fields_ind (P : JSON → Prop) :
  P JUndefined → P JNull → (∀ b, P (JBool b)) → (∀ n, P (JNumber n)) →
  (∀ s, P (JString s)) → (∀ items, P (JArray items)) →
  (∀ fields, Forall (λ kv, P kv.2) fields → P (JObject fields)) →
  ∀ v, P v.
Proof.
  intros Hu Hn Hb Hnum Hs Ha Ho. fix IH 1. intros [| |b|n|s|items|fields].
  - exact Hu.
  - exact Hn.
  - apply Hb.
  - apply Hnum.
  - apply Hs.
  - apply Ha.
  - apply Ho. induction fields as [|[k v] fields IHf]; constructor; [apply IH|exact IHf].
Qed.

Lemma search_object (fields : list (string * JSON)) (depth : nat)
    (best : option (list JSON) * nat) :
  search (JObject fields) depth best =
    if (5 <? depth)%nat then best
    else fold_left (λ b kv, search kv.2 (S depth) b) fields best.
Proof.
  simpl. destruct (5 <? depth)%nat; [done|]. revert best.
  induction fields as [|[k v] fields IH]; intros best; [done|]. simpl. apply IH.
Qed.

Lemma search_spec (node : JSON) (depth : nat) (best : option (list JSON) * nat) :
  let r := search node depth best in
  (best.2 ≤ r.2)%nat
  ∧ (r = best
     ∨ ∃ d arr, nestedIn d node arr ∧ (depth + d ≤ 5)%nat
         ∧ r = (Some arr, locationCount arr) ∧ (best.2 < locationCount arr)%nat)
  ∧ ∀ d arr, nestedIn d node arr → (depth + d ≤ 5)%nat → (locationCount arr ≤ r.2)%nat.
Proof.
  revert depth best. induction node as [| | | | |items|fields IH] using JSON_fields_ind;
    intros depth best r; subst r.
  1-5: simpl; destruct (5 <? depth)%nat;
    (split_and!; [done|by left|intros d arr Hn; inversion Hn]).
  - simpl. destruct (Nat.ltb_spec 5 depth) as [Hdeep|Hok].
    { split_and!; [done|by left|]. intros d arr Hn. inversion Hn. lia. }
    fold (locationCount items).
    destruct (Nat.ltb_spec best.2 (locationCount items)) as [Hlt|Hge]; simpl.
    + split_and!; [lia| |].
      * right. exists 0%nat, items. split_and!; [constructor|lia|done|done].
      * intros d arr Hn _. inversion Hn. by subst.
    + split_and!; [done|by left|]. intros d arr Hn _. inversion Hn. by subst.
  - rewrite search_object. destruct (Nat.ltb_spec 5 depth) as [Hdeep|Hok].
    { split_and!; [done|by left|]. intros d arr Hn. inversion Hn. lia. }
    cut (let r := fold_left (λ b kv, search kv.2 (S depth) b) fields best in
         (best.2 ≤ r.2)%nat
         ∧ (r = best
            ∨ ∃ k v d arr, (k, v) ∈ fields ∧ nestedIn d v arr ∧ (S depth + d ≤ 5)%nat
                ∧ r = (Some arr, locationCount arr) ∧ (best.2 < locationCount arr)%nat)
         ∧ ∀ k v d arr, (k, v) ∈ fields → nestedIn d v arr → (S depth + d ≤ 5)%nat →
             (locationCount arr ≤ r.2)%nat).
    { cbv zeta. intros (H1 & H2 & H3). split_and!; [done| |].
      - destruct H2 as [?|(k & v & d & arr & Hin & Hn & Hd & Hr & Hlt)]; [by left|].
        right. exists (S d), arr. split_and!; [by econstructor|lia|done|done].
      - intros d arr Hn Hd. inversion Hn; subst. eapply H3; [done..|lia]. }
    clear Hok. revert best. induction IH as [|[k v] fields Hv _ IHf]; intros best; cbv zeta.
    { simpl. split_and!; [done|by left|]. by intros k v d arr ?%elem_of_nil. }
    cbn [fold_left snd]. simpl in Hv. specialize (Hv (S depth) best).
    cbv zeta in Hv. destruct Hv as (Hv1 & Hv2 & Hv3).
    specialize (IHf (search v (S depth) best)). cbv zeta in IHf.
    destruct IHf as (Hf1 & Hf2 & Hf3).
    set (mid := search v (S depth) best) in *.
    set (r := fold_left _ fields mid) in *.
    split_and!; [lia| |].
    + destruct Hf2 as [Hr|(k' & v' & d & arr & Hin & Hn & Hd & Hr & Hlt)].
      * rewrite Hr. destruct Hv2 as [?|(d & arr & Hn & Hd & Hm & Hlt)]; [by left|].
        right. exists k, v, d, arr. split_and!; [by left|done..].
      * right. exists k', v', d, arr. split_and!; [by right|done..|lia].
    + intros k' v' d arr [[= -> ->]|Hin]%elem_of_cons Hn Hd.
      * specialize (Hv3 d arr Hn Hd). lia.
      * by eapply Hf3.
Qed.

Lemma firstArray_spec (data : JSON) (keys : list string) :
  match firstArray data keys with
  | Some items =>
      items ≠ []
      ∧ ∃ keys1 first keys2,
          keys = keys1 ++ first :: keys2
          ∧ Forall (λ k, holdsRecords data k = false) keys1
          ∧ propOpt data first = JArray items
  | None => Forall (λ k, holdsRecords data k = false) keys
  end.
Proof.
  induction keys as [|key keys IH]; simpl; [constructor|].
  destruct (propOpt data key) as [| | | | |[|x items]|] eqn:Hkey.
  1-6,8: destruct (firstArray data keys) as [items'|];
    [destruct IH as (Hne & keys1 & first & keys2 & -> & Hnone & Hfirst); split; [done|];
     exists (key :: keys1), first, keys2; split_and!; [done| |done]
    |]; constructor; try done; unfold holdsRecords; by rewrite Hkey.
  split; [done|]. exists [], key, keys. split_and!; [done|constructor|done].
Qed.

(** X15. The priority keys are tried in their order: when one of them holds a
    non-empty array, [findDataArray] returns the array of the first that
    does, whatever the rest of the document holds. *)
Theorem findDataArray_priority (data : JSON) (key : string) :
  truthy data = true → (∀ l, data ≠ JArray l) →
  key ∈ priorityKeys → holdsRecords data key = true →
  ∃ keys1 first keys2 items,
    priorityKeys = keys1 ++ first :: keys2
    ∧ Forall (λ k, holdsRecords data k = false) keys1
    ∧ propOpt data first = JArray items
    ∧ items ≠ []
    ∧ findDataArray data = Some items.
Proof.
  intros Htruthy Harr Hkey Hholds. unfold findDataArray. rewrite Htruthy.
  pose proof (firstArray_spec data priorityKeys) as Hspec.
  destruct (firstArray data priorityKeys) as [items|].
  - destruct Hspec as (Hne & keys1 & first & keys2 & Hsplit & Hnone & Hfirst).
    exists keys1, first, keys2, items. split_and!; try done.
    by destruct data.
  - rewrite Forall_forall in Hspec. specialize (Hspec key Hkey). congruence.
Qed.

(** X16. Without a priority key that holds records, [findDataArray] returns
    an array that lies at most five fields deep and has the most location-like
    elements of all such arrays, at least one; it returns nothing exactly when
    no such array has a location-like element. *)
Theorem findDataArray_fallback (data : JSON) :
  truthy data = true → (∀ l, data ≠ JArray l) →
  Forall (λ k, holdsRecords data k = false) priorityKeys →
  match findDataArray data with
  | Some arr =>
      (0 < locationCount arr)%nat
      ∧ (∃ d, (d ≤ 5)%nat ∧ nestedIn d data arr)
      ∧ ∀ d arr', (d ≤ 5)%nat → nestedIn d data arr' →
          (locationCount arr' ≤ locationCount arr)%nat
  | None =>
      ∀ d arr', (d ≤ 5)%nat → nestedIn d data arr' → locationCount arr' = 0%nat
  end.
Proof.
  intros Htruthy Harr Hnone. unfold findDataArray. rewrite Htruthy.
  pose proof (firstArray_spec data priorityKeys) as Hspec.
  destruct (firstArray data priorityKeys) as [items|].
  { destruct Hspec as (Hne & keys1 & first & keys2 & Hsplit & _ & Hfirst).
    rewrite Forall_forall in Hnone. specialize (Hnone first).
    rewrite Hsplit in Hnone. specialize (Hnone ltac:(set_solver)).
    unfold holdsRecords in Hnone. rewrite Hfirst in Hnone. by destruct items. }
  pose proof (search_spec data 0 (None, 0%nat)) as Hsearch. cbv zeta in Hsearch.
  destruct Hsearch as (_ & Hfrom & Hmax).
  assert (∀ X : option (list JSON),
            match data with JArray items => Some items | _ => X end = X) as ->.
  { intros X. destruct data as [| | | | |items|]; try done. by destruct (Harr items). }
  destruct Hfrom as [Hr|(d & arr & Hn & Hd & Hr & Hlt)].
  - rewrite Hr in *. simpl.
    intros d arr' Hd Hn. specialize (Hmax d arr' Hn ltac:(lia)). simpl in Hmax. lia.
  - rewrite Hr in *. simpl in *.
    split_and!; [lia|exists d; split; [lia|done]|].
    intros d' arr' Hd' Hn'. apply (Hmax d' arr' Hn'). lia.
Qed.

(** X17. [findDataArray] returns an empty array only for a document that is
    itself the empty array. *)
Theorem findDataArray_empty (data : JSON) :
  findDataArray data = Some [] ↔ data = JArray [].
Proof.
  split; [|by intros ->].
  unfold findDataArray. destruct (truthy data) eqn:Htruthy; [|done].
  pose proof (firstArray_spec data priorityKeys) as Hspec.
  pose proof (search_spec data 0 (None, 0%nat)) as Hsearch. cbv zeta in Hsearch.
  destruct Hsearch as (_ & Hfrom & _).
  assert (firstArray data priorityKeys ≠ Some []) as Hfirst.
  { intros E. rewrite E in Hspec. by destruct Hspec. }
  assert ((search data 0 (None, 0%nat)).1 ≠ Some []) as Hfall.
  { destruct Hfrom as [->|(d & arr & _ & _ & -> & Hlt)]; [done|].
    simpl in *. intros [= ->]. unfold locationCount in Hlt. simpl in Hlt. lia. }
  destruct data; try (intros [= ->]; done).
  all: destruct (firstArray _ _) as [items|]; intros [= E]; by subst.
Qed.

Lemma findDataArray_priority_witness :
  ∃ keys1 first keys2 items,
    priorityKeys = keys1 ++ first :: keys2
    ∧ Forall (λ k, holdsRecords legacyDriveDocument k = false) keys1
    ∧ propOpt legacyDriveDocument first = JArray items
    ∧ items ≠ []
    ∧ findDataArray legacyDriveDocument = Some items.
Proof.
  apply (findDataArray_priority legacyDriveDocument "timelineObjects");
    [reflexivity|done|set_solver|reflexivity].
Defined.

Lemma findDataArray_fallback_witness :
  match findDataArray nestedDocument with
  | Some arr =>
      (0 < locationCount arr)%nat
      ∧ (∃ d, (d ≤ 5)%nat ∧ nestedIn d nestedDocument arr)
      ∧ ∀ d arr', (d ≤ 5)%nat → nestedIn d nestedDocument arr' →
          (locationCount arr' ≤ locationCount arr)%nat
  | None =>
      ∀ d arr', (d ≤ 5)%nat → nestedIn d nestedDocument arr' → locationCount arr' = 0%nat
  end.
Proof.
  apply (findDataArray_fallback nestedDocument); [reflexivity|done|].
  repeat constructor.
Defined.

(** ** The city of an address *)










(** ** Coordinate strings *)















Lemma degree_not_number (rest : string) :
  match degree +:+ rest with
  | String c _ => isNumberChar c = false
  | EmptyString => True
  end.
Proof. done. Qed.



Section Coordinates.
Context {rt : JSRuntime}.


End Coordinates.



(** ** The map: thinning the markers *)

Lemma filterIndexed_sublist {A : Type} (keep : nat → bool) (i : nat) (l : list A) :
  sublist (filterIndexed keep i l) l.
Proof.
  revert i. induction l as [|x l IH]; intros i; simpl; [done|].
  destruct (keep i); [by apply sublist_skip|by apply sublist_cons].
Qed.

Lemma filterIndexed_all {A : Type} (keep : nat → bool) (i : nat) (l : list A) :
  (∀ j, keep j = true) → filterIndexed keep i l = l.
Proof.
  intros Hall. revert i. induction l as [|x l IH]; intros i; simpl; [done|].
  by rewrite Hall, IH.
Qed.

Lemma filterIndexed_length {A : Type} (k i : nat) (l : list A) :
  (0 < k)%nat →
  (length (filterIndexed (λ j, (j mod k =? 0)%nat) i l) + multiplesBelow k i)%nat
  = multiplesBelow k (i + length l).
Proof.
  intros Hk. revert i. induction l as [|x l IH]; intros i; cbn [filterIndexed length].
  { by rewrite Nat.add_0_r. }
  replace (i + S (length l))%nat with (S i + length l)%nat by lia.
  rewrite <- IH, (multiplesBelow_S k i Hk).
  destruct (i mod k =? 0)%nat; cbn [length]; lia.
Qed.

Lemma thinningStep_bounds (n : nat) :
  (n ≤ 500 * thinningStep n)%nat ∧ (0 < n → 0 < thinningStep n)%nat.
Proof.
  unfold thinningStep. pose proof (Nat.div_mod_eq (n + 499) 500) as H.
  pose proof (Nat.mod_upper_bound (n + 499) 500 ltac:(lia)) as Hr. lia.
Qed.

(** X22. The map shows at most five hundred markers: [displayEvents] returns
    a sublist of the events that starts with the first event, never longer than
    five hundred, and all the events when there are no more than that; the
    Leaflet map and the Google map thin the events alike. *)
Theorem displayEvents_thins (events : list ProcessedEvent) :
  (length (displayEvents events) ≤ 500)%nat
  ∧ sublist (displayEvents events) events
  ∧ head (displayEvents events) = head events
  ∧ ((length events ≤ 500)%nat → displayEvents events = events)
  ∧ displayEventsGoogle events = displayEvents events.
Proof.
  assert ((length events = 500)%nat →
          filterIndexed (λ i, (i mod thinningStep (length events) =? 0)%nat) 0 events = events)
    as Hexact.
  { intros ->. apply filterIndexed_all. intros j.
    change (thinningStep 500) with 1%nat. by rewrite Nat.mod_1_r. }
  unfold displayEvents, displayEventsGoogle.
  destruct (Nat.ltb_spec (length events) 500) as [Hlt|Hge].
  { split_and!; [lia|done|done|done|].
    by destruct (Nat.ltb_spec 500 (length events)) as [?|_]; [lia|]. }
  destruct (thinningStep_bounds (length events)) as [Hstep Hpos].
  split_and!.
  - pose proof (filterIndexed_length (thinningStep (length events)) 0 events ltac:(lia)) as Hlen.
    rewrite multiplesBelow_0, Nat.add_0_l, Nat.add_0_r in Hlen by lia. rewrite Hlen.
    unfold multiplesBelow. apply Nat.lt_succ_r, Nat.Div0.div_lt_upper_bound. lia.
  - apply filterIndexed_sublist.
  - destruct events as [|e events]; [done|]. cbn [filterIndexed].
    by rewrite Nat.Div0.mod_0_l.
  - intros Hle. apply Hexact. lia.
  - destruct (Nat.ltb_spec 500 (length events)) as [|Hle]; [done|].
    symmetry. apply Hexact. lia.
Qed.

(** ** The filters of the app *)

Section Filters.
Context {rt : JSRuntime}.
Variable toLowerCase : string → string.
Variable setHours : Date → Date.

Lemma dateFilter_sublist (sd ed : string) (l : list ProcessedEvent) :
  sublist (dateFilter setHours sd ed l) l.
Proof. unfold dateFilter. case_match; [apply sublist_filter|done]. Qed.

Lemma placeFiltered_sublist (pf : option PlaceFilter) (l : list ProcessedEvent) :
  sublist (placeFiltered toLowerCase pf l) l.
Proof. destruct pf; simpl; [apply sublist_filter|done]. Qed.

(** X23. [filteredEvents] keeps the events in their order and drops some: under
    a place filter every event left matches the place; when both dates are set
    and they are not ignored, every event left starts at a valid date between
    the start date and the end of the end date, so an event whose start is no
    date is never shown. The two versions of the app differ only without a
    place filter under [searchAllTime]. *)
Theorem filteredEvents_spec (events : list ProcessedEvent) (placeFilter : option PlaceFilter)
    (searchAllTime : bool) (startDate endDate : string) :
  let result :=
    filteredEvents toLowerCase setHours (Some events) placeFilter searchAllTime
      startDate endDate in
  sublist result events
  ∧ (∀ pf e, placeFilter = Some pf → e ∈ result → matchesPlace toLowerCase pf e = true)
  ∧ (startDate ≠ EmptyString → endDate ≠ EmptyString →
     placeFilter = None ∨ searchAllTime = false →
     ∀ e, e ∈ result →
       ∃ t lo hi, startTime e = DateMs t
         ∧ newDate (JString startDate) = DateMs lo
         ∧ setHours (newDate (JString endDate)) = DateMs hi
         ∧ lo <= t <= hi)
  ∧ (is_Some placeFilter ∨ searchAllTime = false →
     filteredEventsLater toLowerCase setHours (Some events) placeFilter searchAllTime
       startDate endDate = result).
Proof.
  cbv zeta. unfold filteredEvents, filteredEventsLater. split_and!.
  - case_match; [|apply placeFiltered_sublist].
    etrans; [apply dateFilter_sublist|apply placeFiltered_sublist].
  - intros pf e -> He.
    assert (e ∈ placeFiltered toLowerCase (Some pf) events) as Hin.
    { case_match; [|done]. eapply elem_of_sublist; [exact He|apply dateFilter_sublist]. }
    simpl in Hin. by apply list_elem_of_filter in Hin as [? _].
  - intros Hsd Hed Hdates e He.
    assert (bool_decide (is_Some placeFilter) && searchAllTime = false) as Hnot.
    { destruct Hdates as [->| ->]; [done|apply andb_false_r]. }
    rewrite Hnot in He. simpl in He. unfold dateFilter in He.
    assert (truthy (JString startDate) && truthy (JString endDate) = true) as Hset.
    { simpl. by destruct startDate, endDate. }
    rewrite Hset in He. cbv zeta in He.
    apply list_elem_of_filter in He as [Hrange _].
    unfold inDateRange, Date_le, Date_ge in Hrange.
    apply andb_true_iff in Hrange as [Hlo Hhi].
    destruct (startTime e) as [|t]; [done|].
    destruct (newDate (JString startDate)) as [|lo]; [done|].
    destruct (setHours (newDate (JString endDate))) as [|hi]; [done|].
    exists t, lo, hi. split_and!; [done..|lia|lia].
  - intros [[pf ->]| ->]; [|by rewrite andb_false_r].
    by destruct searchAllTime.
Qed.
End Filters.

(** ** Statistics of a part of the events *)

Lemma filter_sublist_length {A : Type} (P : A → Prop) `{!∀ x, Decision (P x)} (l' l : list A) :
  sublist l' l → (length (filter P l') ≤ length (filter P l))%nat.
Proof.
  induction 1 as [|x l1 l2 _ IH|x l1 l2 _ IH]; [done|..]; rewrite ?filter_cons.
  - case_decide; simpl; lia.
  - case_decide; simpl; lia.
Qed.

Lemma uniquePlaces_titles (now : Date) (events : list ProcessedEvent) :
  uniquePlaces (calculateStats now events)
    = size (list_to_set (omap titleKey events) : gset string).
Proof.
  destruct events as [|e l]; [done|].
  rewrite calculateStats_cons. cbv zeta. cbn [uniquePlaces].
  rewrite (titles_keys (e :: l) ∅ []) by done. by rewrite tally_keys_set.
Qed.

(** X24. The statistics of a part of the events never exceed those of all of
    them: fewer or as many visits, distinct places, and visits of each
    place. This holds of the filtered statistics of the app. *)
Theorem stats_of_sublist (now now' : Date) (part events : list ProcessedEvent) :
  sublist part events →
  (totalVisits (calculateStats now' part) ≤ totalVisits (calculateStats now events))%nat
  ∧ (uniquePlaces (calculateStats now' part) ≤ uniquePlaces (calculateStats now events))%nat
  ∧ ∀ t n, placeVisitCounts (calculateStats now' part) !! t = Some n →
      ∃ m, placeVisitCounts (calculateStats now events) !! t = Some m ∧ (n ≤ m)%nat.
Proof.
  intros Hsub. split_and!.
  - assert (∀ d l, totalVisits (calculateStats d l)
                   = length (filter (λ e, isVisit e = true) l)) as Htv.
    { by intros d [|e l]. }
    rewrite !Htv. by apply filter_sublist_length.
  - rewrite !uniquePlaces_titles. apply subseteq_size.
    intros t. rewrite !elem_of_list_to_set, !list_elem_of_omap.
    intros (e & He & Hkey). exists e. split; [by eapply elem_of_sublist|done].
  - assert (∀ d l t, placeVisitCounts (calculateStats d l) !! t
                     = match occurrences titleKey t l with O => None | k => Some k end) as Hpv.
    { intros d [|e l] t; [done|]. rewrite calculateStats_cons. cbv zeta.
      cbn [placeVisitCounts]. rewrite lookup_list_to_map, get_tally. simpl.
      destruct (occurrences titleKey t (e :: l)); [done|]. f_equal. lia. }
    intros t n. rewrite !Hpv.
    pose proof (filter_sublist_length (λ e, titleKey e = Some t) part events Hsub) as Hle.
    fold (occurrences titleKey t part) (occurrences titleKey t events) in Hle.
    destruct (occurrences titleKey t part) as [|k]; [done|]. intros [= <-].
    destruct (occurrences titleKey t events) as [|m]; [lia|]. by exists (S m).
Qed.

Lemma stats_of_sublist_witness :
  (totalVisits (calculateStats (DateMs 0) (take 2 sampleDay))
   ≤ totalVisits (calculateStats (DateMs 0) sampleDay))%nat
  ∧ (uniquePlaces (calculateStats (DateMs 0) (take 2 sampleDay))
     ≤ uniquePlaces (calculateStats (DateMs 0) sampleDay))%nat
  ∧ ∀ t n, placeVisitCounts (calculateStats (DateMs 0) (take 2 sampleDay)) !! t = Some n →
      ∃ m, placeVisitCounts (calculateStats (DateMs 0) sampleDay) !! t = Some m ∧ (n ≤ m)%nat.
Proof.
  apply (stats_of_sublist (DateMs 0) (DateMs 0) (take 2 sampleDay) sampleDay).
  apply sublist_take.
Defined.

(** ** Renaming a place *)

Lemma fold_left_fmap_ext {A B : Type} (f : A → B → A) (g : B → B) (l : list B) (a : A) :
  (∀ a e, f a (g e) = f a e) → fold_left f (g <$> l) a = fold_left f l a.
Proof.
  intros Hext. revert a. induction l as [|e l IH]; intros a; csimpl; [done|].
  by rewrite Hext, IH.
Qed.

Lemma visits_fmap (g : ProcessedEvent → ProcessedEvent) (l : list ProcessedEvent) :
  (∀ e, type (g e) = type e) →
  length (filter (λ e, isVisit e = true) (g <$> l)) = length (filter (λ e, isVisit e = true) l).
Proof.
  intros Hg. induction l as [|x l IH]; [done|]. csimpl. rewrite !filter_cons.
  assert (isVisit (g x) = isVisit x) as -> by (unfold isVisit; by rewrite Hg).
  case_decide; simpl; by rewrite IH.
Qed.

Lemma renameEvent_keeps (pid name_ : string) (address : option string) (e : ProcessedEvent) :
  let e' := renameEvent pid name_ address e in
  id e' = id e ∧ type e' = type e ∧ startTime e' = startTime e ∧ endTime e' = endTime e
  ∧ lat e' = lat e ∧ lng e' = lng e ∧ distanceMeters e' = distanceMeters e
  ∧ activityType e' = activityType e ∧ placeId e' = placeId e
  ∧ (placeId e ≠ Some pid → e' = e)
  ∧ (placeId e = Some pid → title e' = name_).
Proof.
  cbv zeta. unfold renameEvent. case_bool_decide; simpl; by split_and!.
Qed.

(** X25. Giving a place its real name changes only the title, the subtitle
    and the city of the events of that place: every event keeps its id, kind,
    times, coordinates, distance and activity, and the events of other places
    are untouched; so the visit count, the distance, the date range and the
    activity breakdown of the statistics stay what they were. *)
Theorem renamePlace_keeps_the_timeline (now : Date) (pid : string)
    (realName address : option string) (events : list ProcessedEvent) :
  let renamed := renamePlace pid realName address events in
  Forall2 (λ e' e,
             id e' = id e ∧ type e' = type e
             ∧ startTime e' = startTime e ∧ endTime e' = endTime e
             ∧ lat e' = lat e ∧ lng e' = lng e
             ∧ distanceMeters e' = distanceMeters e ∧ activityType e' = activityType e
             ∧ placeId e' = placeId e
             ∧ (placeId e ≠ Some pid → e' = e)
             ∧ (placeId e = Some pid →
                ∀ name_, string_truthy realName = Some name_ → title e' = name_))
          renamed events
  ∧ totalVisits (calculateStats now renamed) = totalVisits (calculateStats now events)
  ∧ totalDistanceKm (calculateStats now renamed) = totalDistanceKm (calculateStats now events)
  ∧ dateRange (calculateStats now renamed) = dateRange (calculateStats now events)
  ∧ activityBreakdown (calculateStats now renamed)
    = activityBreakdown (calculateStats now events).
Proof.
  cbv zeta. unfold renamePlace. destruct (string_truthy realName) as [name_|].
  2: { split; [|done]. apply Forall_Forall2_diag, Forall_forall. intros e _.
       split_and!; try done. }
  set (g := renameEvent pid name_ address).
  assert (∀ e, type (g e) = type e ∧ startTime (g e) = startTime e
               ∧ endTime (g e) = endTime e ∧ distanceMeters (g e) = distanceMeters e
               ∧ activityType (g e) = activityType e) as Hg.
  { intros e. pose proof (renameEvent_keeps pid name_ address e) as H. cbv zeta in H.
    fold g in H. by destruct H as (_ & ? & ? & ? & _ & _ & ? & ? & _). }
  split.
  { apply Forall2_fmap_l, Forall_Forall2_diag, Forall_forall. intros e _.
    pose proof (renameEvent_keeps pid name_ address e) as H. cbv zeta in H.
    destruct H as (? & ? & ? & ? & ? & ? & ? & ? & ? & ? & Hname).
    split_and!; try done. intros Hp n [= <-]. by apply Hname. }
  change (map g events) with (g <$> events).
  destruct events as [|e l]; [done|].
  change (g <$> e :: l) with (g e :: (g <$> l)).
  rewrite !calculateStats_cons. cbv zeta.
  cbn [totalVisits totalDistanceKm dateRange activityBreakdown].
  change (g e :: (g <$> l)) with (g <$> e :: l). set (events := e :: l).
  assert (fold_left addDistance (g <$> events) (Num 0) = fold_left addDistance events (Num 0))
    as ->.
  { apply fold_left_fmap_ext. intros a x. unfold addDistance.
    by destruct (Hg x) as (_ & _ & _ & -> & _). }
  assert (∀ d, fold_left minStep (g <$> events) d = fold_left minStep events d) as Hmin.
  { intros d. apply fold_left_fmap_ext. intros a x. unfold minStep.
    by destruct (Hg x) as (_ & -> & _). }
  assert (∀ d, fold_left maxStep (g <$> events) d = fold_left maxStep events d) as Hmax.
  { intros d. apply fold_left_fmap_ext. intros a x. unfold maxStep.
    by destruct (Hg x) as (_ & _ & -> & _). }
  assert (fold_left (tallyStep activityKey) (g <$> events) []
          = fold_left (tallyStep activityKey) events []) as ->.
  { apply fold_left_fmap_ext. intros a x. unfold tallyStep, activityKey, isMove.
    by destruct (Hg x) as (-> & _ & _ & _ & ->). }
  rewrite Hmin, Hmax, length_fmap. split_and!; try done.
  apply visits_fmap. intros x. by destruct (Hg x) as (? & _).
Qed.

(** ** Titles, and the records behind a result *)

Section Titles.
Context {rt : JSRuntime}.
Implicit Types (index : nat) (obj : JSON) (items : list JSON) (evs : list ProcessedEvent).

Lemma or_string_nonempty (v : JSON) (fallback s : string) :
  fallback ≠ EmptyString → or_ v (JString fallback) = JString s → s ≠ EmptyString.
Proof.
  unfold or_. intros Hf. destruct (truthy v) eqn:Hv.
  - intros ->. simpl in Hv. by destruct s.
  - by intros [= <-].
Qed.

Lemma replaceUnderscores_nonempty (s : string) :
  s ≠ EmptyString → replaceUnderscores s ≠ EmptyString.
Proof. by destruct s. Qed.

(** X26. Every event has a title: a missing or empty name, activity type or
    label is replaced by a default, so no event of a record has the empty
    string as its title. *)
Theorem events_have_titles index obj evs e :
  processRecord index obj = Ok evs → e ∈ evs → title e ≠ EmptyString.
Proof.
  revert index obj evs e.
  apply (processRecord_emitters (λ _ e, title e ≠ EmptyString)).
  - intros index obj v s t evs e H He. unfold semanticVisit in H.
    exec_cases H; only_event He; (eapply or_string_nonempty; [|eassumption]; done).
  - intros index obj v s t evs e H He. unfold semanticActivity in H.
    exec_cases H; only_event He; apply replaceUnderscores_nonempty;
      (eapply or_string_nonempty; [|eassumption]; done).
  - intros index st pIdx pt evs e H He. unfold pathPoint in H.
    exec_cases H; by only_event He.
  - intros index obj p evs e H He. unfold rawSignal in H.
    exec_cases H; by only_event He.
  - intros index obj v evs e H He. unfold legacyVisit in H.
    exec_cases H; only_event He; (eapply or_string_nonempty; [|eassumption]; done).
  - intros index obj v evs e H He. unfold legacyActivity in H.
    exec_cases H; only_event He; (eapply or_string_nonempty; [|eassumption]; done).
Qed.

(** X27. The events of a result are the events of the records: each comes
    from a record of the array that [findDataArray] returns, processed at the
    index of that record, and every event of every record is in the
    result. *)
Theorem result_events_come_from_records (jsonData : JSON) evs (stats : DashboardStats) :
  parseTimelineData jsonData = Ok (Some (evs, stats)) →
  ∃ items,
    findDataArray jsonData = Some items
    ∧ (∀ e, e ∈ evs ↔
         ∃ k obj pushed,
           items !! k = Some obj ∧ processRecord k obj = Ok pushed ∧ e ∈ pushed)
    ∧ ∀ k obj, items !! k = Some obj → ∃ pushed, processRecord k obj = Ok pushed.
Proof.
  unfold parseTimelineData, parseBody.
  destruct (findDataArray jsonData) as [[|x items]|] eqn:Hfind; try done.
  destruct (collectEvents 0 (x :: items)) as [[|e0 pushed]| |] eqn:Hrun;
    cbn [mbind exec_bind]; cbv zeta; try done.
  intros [= <- _]. exists (x :: items). split; [done|].
  assert (∀ i l all, collectEvents i l = Ok all →
            ∀ k obj, l !! k = Some obj →
              ∃ got, processRecord (i + k) obj = Ok got ∧ got ⊆ all) as Hall.
  { clear. intros i l. revert i. induction l as [|y l IH]; intros i all H k obj Hk; [done|].
    simpl in H.
    destruct (processRecord i y) as [got| |] eqn:E1; simpl in H; try done.
    destruct (collectEvents (S i) l) as [more| |] eqn:E2; simpl in H; try done.
    simplify_eq. destruct k as [|k]; simpl in Hk; simplify_eq.
    - rewrite Nat.add_0_r. exists got. split; [done|]. set_solver.
    - destruct (IH _ _ E2 k obj Hk) as (got' & Hgot & Hsub).
      exists got'. replace (i + S k)%nat with (S i + k)%nat by lia. split; [done|].
      set_solver. }
  split.
  - intros e. rewrite (sort_Permutation byStartTime (e0 :: pushed)). split.
    + intros He. destruct (collectEvents_elem _ _ _ _ Hrun He) as (k & obj & got & ? & ? & ?).
      by exists k, obj, got.
    + intros (k & obj & got & Hk & Hgot & He).
      destruct (Hall _ _ _ Hrun k obj Hk) as (got' & Hgot' & Hsub).
      simpl in Hgot'. rewrite Hgot in Hgot'. simplify_eq. by apply Hsub.
  - intros k obj Hk. destruct (Hall _ _ _ Hrun k obj Hk) as (got & Hgot & _).
    by exists got.
Qed.
End Titles.

Lemma events_have_titles_witness :
  Forall (λ e, title e ≠ EmptyString) pathSegmentEvents
  ∧ (title <$> pathSegmentEvents) = replicate 5 "Path Point".
Proof.
  split; [|reflexivity]. apply Forall_forall. intros e He.
  apply (events_have_titles (rt := SampleEngine.engine) 3 pathSegment pathSegmentEvents);
    [vm_compute; reflexivity|exact He].
Defined.

Lemma result_events_come_from_records_witness :
  ∃ items,
    findDataArray twoSegmentDocument = Some items
    ∧ (∀ e, e ∈ twoSegmentEvents ↔
         ∃ k obj pushed,
           items !! k = Some obj
           ∧ processRecord (rt := SampleEngine.engine) k obj = Ok pushed ∧ e ∈ pushed)
    ∧ ∀ k obj, items !! k = Some obj →
        ∃ pushed, processRecord (rt := SampleEngine.engine) k obj = Ok pushed.
Proof.
  apply (result_events_come_from_records (rt := SampleEngine.engine) twoSegmentDocument
           twoSegmentEvents
           (calculateStats (clock (JSRuntime := SampleEngine.engine)) twoSegmentEvents)).
  vm_compute. reflexivity.
Defined.
